(** * BinanceImporter: the candle collection engine and the indicator library

    A shallow embedding of [candle_collector_debug.py] (classes
    [DatabaseManager], [BinanceAPI], [CandleCollector]) and of the list
    functions of [technical_indicators.py] ([TechnicalIndicators]).

    Modelling conventions.
    - Timestamps and counters are Python [int]s: [Z].
    - The MySQL tables [candles], [collection_control], [collection_logs]
      are finite maps / lists held in a [World] that is threaded through
      every operation; Python exceptions are the [Raise] case of [outcome].
    - The outside world (HTTP transport, faults of the bulk insert, the
      clock, the stop event) is an [Env] of oracles, quantified in every
      theorem.
    - Of the database statements only the bulk insert can fail; the
      reads and the writes of the cursor and of the log always succeed.
    - All clock reads of one modelled execution return the same instant
      [now] (milliseconds since the epoch); the host clock is UTC, so
      [datetime.utcnow().timestamp()] and [time.time()] agree. *)

From Stdlib Require Import ZArith Lia QArith Qabs Lqa.
From stdpp Require Import gmap strings list.

Local Open Scope string_scope.
Local Open Scope list_scope.
Local Open Scope Z_scope.

(** ** Python runtime: exceptions, truthiness, sequences *)

Module Py.

(** The exception classes the modelled code can meet.  The first four are
    subclasses of [requests.exceptions.RequestException]
    (requirements.txt pins [requests>=2.28.0], where the error raised by
    [response.json()] is [requests.exceptions.JSONDecodeError]). *)
Inductive exn_class : Type :=
  | Timeout
  | ConnectionError
  | HTTPError (status : Z)
  | JSONDecodeError
  | KeyError
  | MySQLError
  | ZeroDivisionError
  | IndexError
  | ValueError.

(** An exception object: its class and [str(e)]. *)
Record exn : Type := Exn { exn_cls : exn_class; str : string }.

Definition is_RequestException (e : exn) : bool :=
  match exn_cls e with
  | Timeout | ConnectionError | HTTPError _ | JSONDecodeError => true
  | _ => false
  end.

(** [KeyError(k)] prints as the repr of the key. *)
Definition key_error (k : string) : exn := Exn KeyError ("'" +:+ k +:+ "'").

Inductive outcome (A : Type) : Type :=
  | Return (a : A)
  | Raise (e : exn).
Arguments Return {A} a.
Arguments Raise {A} e.

(** Truthiness of an [int] and of an [Optional[int]]. *)
Definition truthy (z : Z) : bool := negb (z =? 0).

Definition truthy_opt (o : option Z) : bool :=
  match o with
  | Some z => truthy z
  | None => false
  end.

(** [x or d] for an [Optional[int]] [x]. *)
Definition or_else (o : option Z) (d : Z) : Z :=
  match o with
  | Some z => if truthy z then z else d
  | None => d
  end.

(** [len(l)] as a Python int. *)
Definition len {A} (l : list A) : Z := Z.of_nat (length l).

(** [range(a, b)]. *)
Definition range (a b : Z) : list Z :=
  map (fun k => a + Z.of_nat k) (seq 0 (Z.to_nat (b - a))).

(** [[x] * n]: empty when [n <= 0]. *)
Definition replicate_py {A} (n : Z) (x : A) : list A := repeat x (Z.to_nat n).

(** Normalisation of one slice bound against a length (CPython's
    [PySlice_AdjustIndices] for step 1). *)
Definition clamp (n i : Z) : Z :=
  if i <? 0 then Z.max (i + n) 0 else Z.min i n.

(** [l[lo:hi]]. *)
Definition slice {A} (l : list A) (lo hi : Z) : list A :=
  let n := len l in
  let a := clamp n lo in
  let b := clamp n hi in
  firstn (Z.to_nat (b - a)) (skipn (Z.to_nat a) l).

(** [l[i]], with negative indices counted from the end. *)
Definition index {A} (l : list A) (i : Z) : outcome A :=
  let j := if i <? 0 then i + len l else i in
  if (j <? 0) || (len l <=? j) then Raise (Exn IndexError "list index out of range")
  else match l !! Z.to_nat j with
       | Some x => Return x
       | None => Raise (Exn IndexError "list index out of range")
       end.

(** [max(xs)] of a non-empty sequence of ints. *)
Definition max_of (x : Z) (xs : list Z) : Z := fold_left Z.max xs x.

End Py.

Import Py.

(** ** config.py *)

Record binance_config : Type := {
  max_retries : Z;
  retry_delay : Z
}.

Definition BINANCE_CONFIG : binance_config :=
  {| max_retries := 3; retry_delay := 1 |}.

(** ** Data model *)

(** One row of the upstream [/api/v3/klines] answer.  Prices and volumes
    arrive as decimal text and are stored through [Decimal(str(x))]; they
    are carried as text.  Rows are taken well-formed, so
    [parse_kline_data] does not raise. *)
Record kline : Type := {
  k_open_time : Z;            (* kline[0] *)
  k_open : string;            (* kline[1] *)
  k_high : string;            (* kline[2] *)
  k_low : string;             (* kline[3] *)
  k_close : string;           (* kline[4] *)
  k_volume : string;          (* kline[5] *)
  k_close_time : Z;           (* kline[6] *)
  k_quote_volume : string;    (* kline[7] *)
  k_trades : Z;               (* kline[8] *)
  k_taker_base : string;      (* kline[9] *)
  k_taker_quote : string      (* kline[10] *)
}.

(** A row of table [candles] (the 13-tuple built by [parse_kline_data]). *)
Record candle_row : Type := {
  symbol : string;
  interval_type : string;
  open_time : Z;              (* c[2] *)
  close_time : Z;
  open_price : string;
  high_price : string;
  low_price : string;
  close_price : string;
  volume : string;
  quote_asset_volume : string;
  number_of_trades : Z;
  taker_buy_base_asset_volume : string;
  taker_buy_quote_asset_volume : string
}.

(** A row of table [collection_control], keyed by (symbol, interval_type).
    Column [updated_at] is not modelled. *)
Record control_row : Type := {
  last_collected_time : option Z;
  status : string;
  error_count : Z;
  last_error : option string
}.

(** A row of table [collection_logs]. *)
Record log_row : Type := {
  lg_symbol : string;
  lg_interval : string;
  lg_collection_type : string;
  lg_start_time : Z;
  lg_end_time : Z;
  lg_records_collected : Z;
  lg_status : string;
  lg_error_message : option string;
  lg_execution_time : Z
}.

(** Query parameters of a request: a dict in insertion order. *)
Inductive pyval : Type :=
  | PStr (s : string)
  | PInt (z : Z).

Record http_request : Type := {
  endpoint : string;
  params : list (string * pyval)
}.

Record response : Type := {
  status_code : Z;
  reason : string;
  json_body : option (list kline)   (* [None]: the body is not JSON *)
}.

(** What one call of [session.get] does: it raises, or yields a response. *)
Inductive get_result : Type :=
  | GetRaises (e : exn)
  | GetResponse (r : response).

(** The state threaded through the program: the three tables, and the
    history of effects sent to the outside (requests, sleeps, batches
    handed to [insert_candles]). *)
Record World : Type := {
  candles : gmap (string * string * Z) candle_row;
  collection_control : gmap (string * string) control_row;
  collection_logs : list log_row;
  http_log : list http_request;
  sleep_log : list Z;
  insert_log : list (list candle_row)
}.

Definition empty_world : World :=
  {| candles := ∅; collection_control := ∅; collection_logs := [];
     http_log := []; sleep_log := []; insert_log := [] |}.

(** The environment: how the outside answers.
    - [session_get k req]: outcome of the call of [session.get] made after
      [k] earlier calls;
    - [execute_many_fault k rows]: [Some e] when the bulk insert issued
      after [k] earlier calls of [insert_candles] raises [e] (the
      transaction is rolled back);
    - [stop_event_is_set k]: value of [stop_event.is_set()] at its [k]-th
      test by a loop. *)
Record Env : Type := {
  now : Z;
  session_get : nat -> http_request -> get_result;
  execute_many_fault : nat -> list candle_row -> option exn;
  stop_event_is_set : nat -> bool;
  config : binance_config
}.

(** ** The effect monad: state plus exceptions *)

Definition M (A : Type) : Type := World -> outcome A * World.

Definition ret {A} (a : A) : M A := fun w => (Return a, w).

Definition raise {A} (e : exn) : M A := fun w => (Raise e, w).

Definition bind {A B} (m : M A) (k : A -> M B) : M B :=
  fun w =>
    match m w with
    | (Return a, w1) => k a w1
    | (Raise e, w1) => (Raise e, w1)
    end.

Notation "'do' x <- m ; k" := (bind m (fun x => k))
  (at level 10, x name, m at level 100, k at level 200).
Notation "'exec' m ; k" := (bind m (fun _ => k))
  (at level 10, m at level 100, k at level 200).

Definition set_candles (t : gmap (string * string * Z) candle_row) (w : World) : World :=
  {| candles := t; collection_control := collection_control w;
     collection_logs := collection_logs w; http_log := http_log w;
     sleep_log := sleep_log w; insert_log := insert_log w |}.

Definition set_collection_control (t : gmap (string * string) control_row) (w : World) : World :=
  {| candles := candles w; collection_control := t;
     collection_logs := collection_logs w; http_log := http_log w;
     sleep_log := sleep_log w; insert_log := insert_log w |}.

Definition set_collection_logs (t : list log_row) (w : World) : World :=
  {| candles := candles w; collection_control := collection_control w;
     collection_logs := t; http_log := http_log w;
     sleep_log := sleep_log w; insert_log := insert_log w |}.

Definition set_http_log (t : list http_request) (w : World) : World :=
  {| candles := candles w; collection_control := collection_control w;
     collection_logs := collection_logs w; http_log := t;
     sleep_log := sleep_log w; insert_log := insert_log w |}.

Definition set_sleep_log (t : list Z) (w : World) : World :=
  {| candles := candles w; collection_control := collection_control w;
     collection_logs := collection_logs w; http_log := http_log w;
     sleep_log := t; insert_log := insert_log w |}.

Definition set_insert_log (t : list (list candle_row)) (w : World) : World :=
  {| candles := candles w; collection_control := collection_control w;
     collection_logs := collection_logs w; http_log := http_log w;
     sleep_log := sleep_log w; insert_log := t |}.

(** Two worlds with the same database (the three tables). *)
Definition same_db (w1 w2 : World) : Prop :=
  candles w1 = candles w2 /\
  collection_control w1 = collection_control w2 /\
  collection_logs w1 = collection_logs w2.

(** [time.sleep(s)]. *)
Definition sleep (s : Z) : M unit :=
  fun w => (Return tt, set_sleep_log (sleep_log w ++ [s]) w).

(** ** class BinanceAPI *)

Module BinanceAPI.

(** [response.raise_for_status()]: [HTTPError] for 4xx and 5xx (the
    [for url: ...] tail of the message is left out). *)
Definition raise_for_status (r : response) : outcome unit :=
  if (400 <=? status_code r) && (status_code r <? 500) then
    Raise (Exn (HTTPError (status_code r)) ("Client Error: " +:+ reason r))
  else if (500 <=? status_code r) && (status_code r <? 600) then
    Raise (Exn (HTTPError (status_code r)) ("Server Error: " +:+ reason r))
  else Return tt.

(** [response.json()]. *)
Definition json (r : response) : outcome (list kline) :=
  match json_body r with
  | Some body => Return body
  | None => Raise (Exn JSONDecodeError "Expecting value: line 1 column 1 (char 0)")
  end.

(** The [try] block of one attempt, made after [k] earlier requests:
    [response = session.get(...); response.raise_for_status();
     return response.json()]. *)
Definition attempt_result (E : Env) (k : nat) (req : http_request)
    : outcome (list kline) :=
  match session_get E k req with
  | GetRaises e => Raise e
  | GetResponse r =>
      match raise_for_status r with
      | Raise e => Raise e
      | Return _ => json r
      end
  end.

Definition attempt_once (E : Env) (req : http_request) : M (list kline) :=
  fun w =>
    (attempt_result E (length (http_log w)) req,
     set_http_log (http_log w ++ [req]) w).

(** The [for attempt in range(self.max_retries)] loop, entered at
    iteration [attempt] with [remaining] iterations to go.  Falling off
    the end of the loop makes the method return [None]. *)
Fixpoint request_loop (E : Env) (req : http_request)
    (remaining : nat) (attempt : Z) : M (option (list kline)) :=
  match remaining with
  | O => ret None
  | S k =>
      fun w =>
        match attempt_once E req w with
        | (Return body, w1) => (Return (Some body), w1)
        | (Raise e, w1) =>
            if is_RequestException e then
              if attempt <? max_retries (config E) - 1 then
                (exec sleep (retry_delay (config E) * (attempt + 1));
                 request_loop E req k (attempt + 1)) w1
              else (Raise e, w1)
            else (Raise e, w1)
        end
  end.

Definition _make_request (E : Env) (endpoint : string)
    (params : list (string * pyval)) : M (option (list kline)) :=
  request_loop E {| endpoint := endpoint; params := params |}
    (Z.to_nat (max_retries (config E))) 0.

(** [get_klines]: [startTime]/[endTime] are sent only when truthy. *)
Definition get_klines (E : Env) (symbol interval : string)
    (start_time end_time : option Z) (limit : Z) : M (option (list kline)) :=
  let params :=
    [("symbol", PStr symbol); ("interval", PStr interval);
     ("limit", PInt (Z.min limit 1000))] in
  let params :=
    if truthy_opt start_time then (params ++ [("startTime", PInt (or_else start_time 0))])%list
    else params in
  let params :=
    if truthy_opt end_time then (params ++ [("endTime", PInt (or_else end_time 0))])%list
    else params in
  _make_request E "/api/v3/klines" params.

End BinanceAPI.

(** ** class CandleCollector *)

Module CandleCollector.

Definition INTERVALS : list string :=
  ["1m"; "3m"; "5m"; "15m"; "30m"; "1h"; "2h"; "4h"; "6h"; "8h"; "12h";
   "1d"; "3d"; "1w"; "1M"].

Definition INTERVAL_MS_items : list (string * Z) :=
  [("1m", 60000); ("3m", 180000); ("5m", 300000); ("15m", 900000);
   ("30m", 1800000); ("1h", 3600000); ("2h", 7200000); ("4h", 14400000);
   ("6h", 21600000); ("8h", 28800000); ("12h", 43200000); ("1d", 86400000);
   ("3d", 259200000); ("1w", 604800000); ("1M", 2592000000)].

Definition INTERVAL_MS : gmap string Z := list_to_map INTERVAL_MS_items.

(** [self.INTERVAL_MS[interval]]. *)
Definition interval_ms (interval : string) : M Z :=
  match INTERVAL_MS !! interval with
  | Some ms => ret ms
  | None => raise (key_error interval)
  end.

(** [timedelta(days=d)] in milliseconds. *)
Definition days_ms (d : Z) : Z := d * 86400000.

Definition parse_kline_data (kline_data : kline) (symbol interval : string) : candle_row :=
  {| symbol := symbol;
     interval_type := interval;
     open_time := k_open_time kline_data;
     close_time := k_close_time kline_data;
     open_price := k_open kline_data;
     high_price := k_high kline_data;
     low_price := k_low kline_data;
     close_price := k_close kline_data;
     volume := k_volume kline_data;
     quote_asset_volume := k_quote_volume kline_data;
     number_of_trades := k_trades kline_data;
     taker_buy_base_asset_volume := k_taker_base kline_data;
     taker_buy_quote_asset_volume := k_taker_quote kline_data |}.

(** The unique key of table [candles]. *)
Definition candle_key (c : candle_row) : string * string * Z :=
  (symbol c, interval_type c, open_time c).

(** [INSERT IGNORE] of the rows in order: a row whose key is present is
    skipped; the result carries the number of rows really inserted
    ([cursor.rowcount]). *)
Fixpoint insert_ignore (tbl : gmap (string * string * Z) candle_row)
    (rows : list candle_row) : gmap (string * string * Z) candle_row * Z :=
  match rows with
  | [] => (tbl, 0)
  | c :: rest =>
      match tbl !! candle_key c with
      | Some _ => insert_ignore tbl rest
      | None =>
          let '(tbl', n) := insert_ignore (<[candle_key c := c]> tbl) rest in
          (tbl', 1 + n)
      end
  end.

(** [insert_candles]: nothing to do on an empty batch; otherwise
    [db.execute_many], which either commits every row or raises after a
    rollback. *)
Definition insert_candles (E : Env) (candles_data : list candle_row) : M Z :=
  fun w =>
    let w1 := set_insert_log (insert_log w ++ [candles_data]) w in
    match candles_data with
    | [] => (Return 0, w1)
    | _ :: _ =>
        match execute_many_fault E (length (insert_log w)) candles_data with
        | Some e => (Raise e, w1)
        | None =>
            let '(tbl, n) := insert_ignore (candles w1) candles_data in
            (Return n, set_candles tbl w1)
        end
    end.

(** [get_last_collected_time]: [None] when there is no row (or the column
    is NULL). *)
Definition get_last_collected_time (symbol interval : string) : M (option Z) :=
  fun w =>
    (Return (match collection_control w !! (symbol, interval) with
             | Some row => last_collected_time row
             | None => None
             end), w).

(** [SELECT MAX(open_time) FROM candles WHERE symbol = .. AND
    interval_type = ..]: NULL when no row matches. *)
Definition select_max_open_time (tbl : gmap (string * string * Z) candle_row)
    (symbol interval : string) : option Z :=
  map_fold
    (fun key row acc =>
       if decide (key.1 = (symbol, interval)) then
         match acc with
         | Some m => Some (Z.max m (open_time row))
         | None => Some (open_time row)
         end
       else acc)
    None tbl.

(** [get_last_candle_time]: a NULL or zero maximum yields [None]. *)
Definition get_last_candle_time (symbol interval : string) : M (option Z) :=
  fun w =>
    let last_time := select_max_open_time (candles w) symbol interval in
    (Return (if truthy_opt last_time then last_time else None), w).

(** [update_collection_control]: [INSERT ... ON DUPLICATE KEY UPDATE]. *)
Definition update_collection_control (symbol interval : string) (last_time : Z)
    (status : string) (error_msg : option string) : M unit :=
  fun w =>
    let error_count0 := if String.eqb status "error" then 1 else 0 in
    let row :=
      match collection_control w !! (symbol, interval) with
      | None =>
          {| last_collected_time := Some last_time; status := status;
             error_count := error_count0; last_error := error_msg |}
      | Some old =>
          {| last_collected_time := Some last_time; status := status;
             error_count :=
               if String.eqb status "error" then error_count old + 1 else 0;
             last_error := error_msg |}
      end in
    (Return tt,
     set_collection_control (<[(symbol, interval) := row]> (collection_control w)) w).

Definition log_collection (symbol interval collection_type : string)
    (start_time end_time records : Z) (status : string)
    (error_msg : option string) (exec_time : Z) : M unit :=
  fun w =>
    (Return tt,
     set_collection_logs
       (collection_logs w ++
        [{| lg_symbol := symbol; lg_interval := interval;
            lg_collection_type := collection_type;
            lg_start_time := start_time; lg_end_time := end_time;
            lg_records_collected := records; lg_status := status;
            lg_error_message := error_msg; lg_execution_time := exec_time |}]) w).

(** The window resolution at the head of the [try] block: the value of
    the local [start_time] once it is known. *)
Definition resolve_start_time (E : Env) (symbol interval : string)
    (start_time : option Z) : M Z :=
  match start_time with
  | Some s => ret s
  | None =>
      do last_time <- get_last_collected_time symbol interval;
      if truthy_opt last_time then
        do ms <- interval_ms interval;
        ret (or_else last_time 0 + ms)
      else ret (now E - days_ms 30)
  end.

(** The conversion loop: a kline whose close time is after the current
    time is skipped ([continue]), the others are parsed and appended. *)
Fixpoint convert_klines (E : Env) (symbol interval : string)
    (klines : list kline) : list candle_row :=
  match klines with
  | [] => []
  | kline :: rest =>
      if k_close_time kline >? now E then convert_klines E symbol interval rest
      else parse_kline_data kline symbol interval
           :: convert_klines E symbol interval rest
  end.

(** [max(c[2] for c in candles_data)] of a non-empty batch. *)
Definition max_open_time (c : candle_row) (cs : list candle_row) : Z :=
  max_of (open_time c) (map open_time cs).

(** The rest of the [try] block, from the fetch on. *)
Definition fetch_and_store (E : Env) (symbol interval : string)
    (start_time : Z) (end_time : option Z) (limit : Z) : M (Z * string) :=
  do klines <- BinanceAPI.get_klines E symbol interval (Some start_time) end_time limit;
  match klines with
  | None | Some [] => ret (0, "success")
  | Some klines =>
      let candles_data := convert_klines E symbol interval klines in
      do inserted <- insert_candles E candles_data;
      exec (match candles_data with
            | [] => ret tt
            | c :: cs =>
                update_collection_control symbol interval (max_open_time c cs)
                  "active" None
            end);
      exec log_collection symbol interval "single" start_time
             (or_else end_time (now E)) inserted "success" None (now E - now E);
      ret (inserted, "success")
  end.

(** The [except Exception as e] handler; [start_time] is the value of the
    local at the time of the raise. *)
Definition on_exception (E : Env) (symbol interval : string)
    (start_time end_time : option Z) (e : exn) : M (Z * string) :=
  let error_msg := str e in
  exec log_collection symbol interval "single" (or_else start_time 0)
         (or_else end_time (now E)) 0 "error" (Some error_msg) (now E - now E);
  do last_time <- get_last_candle_time symbol interval;
  exec update_collection_control symbol interval (or_else last_time 0)
         "error" (Some error_msg);
  ret (0, error_msg).

(** The [try] block.  Besides its outcome it yields the value of the
    local [start_time] when the block is left, which the handler reads. *)
Definition try_block (E : Env) (symbol interval : string)
    (start_time end_time : option Z) (limit : Z)
    : World -> outcome (Z * string) * option Z * World :=
  fun w =>
    match resolve_start_time E symbol interval start_time w with
    | (Raise e, w1) => (Raise e, start_time, w1)
    | (Return start, w1) =>
        let '(r, w2) := fetch_and_store E symbol interval start end_time limit w1 in
        (r, Some start, w2)
    end.

Definition collect_single_symbol (E : Env) (symbol interval : string)
    (start_time end_time : option Z) (limit : Z) : M (Z * string) :=
  fun w =>
    match try_block E symbol interval start_time end_time limit w with
    | (Return r, _, w1) => (Return r, w1)
    | (Raise e, start_time, w1) =>
        on_exception E symbol interval start_time end_time e w1
    end.

(** [_get_schedule_interval]. *)
Definition _get_schedule_interval (interval : string) : Z :=
  if bool_decide (interval ∈ ["1m"; "3m"; "5m"]) then 5
  else if bool_decide (interval ∈ ["15m"; "30m"]) then 15
  else if bool_decide (interval ∈ ["1h"; "2h"]) then 60
  else 240.

(** [_schedule_collection interval], on the token symbols returned by
    [get_active_tokens]; [k] numbers the tests of the stop event. *)
Fixpoint schedule_loop (E : Env) (interval : string) (tokens : list string)
    (k : nat) (task_queue : list (option (string * string)))
    : list (option (string * string)) :=
  match tokens with
  | [] => task_queue
  | symbol :: rest =>
      if stop_event_is_set E k then task_queue
      else schedule_loop E interval rest (S k)
             (task_queue ++ [Some (symbol, interval)])
  end.

Definition _schedule_collection (E : Env) (interval : string)
    (tokens : list string) (k : nat)
    (task_queue : list (option (string * string)))
    : list (option (string * string)) :=
  schedule_loop E interval tokens k task_queue.

(** The [while] loop of [fill_missing_data].  [fuel] bounds the number
    of iterations the model may unfold ([None]: fuel exhausted); [k]
    numbers the tests of the stop event; [windows] is history: the
    (start, end) pairs handed to [collect_single_symbol] so far.  The
    half-second pause between windows leaves the state unchanged. *)
Fixpoint fill_loop (fuel : nat) (E : Env) (symbol interval : string)
    (end_time : Z) (k : nat) (current_time total_collected : Z)
    (windows : list (Z * Z)) (w : World)
    : option (outcome Z * list (Z * Z) * World) :=
  if (current_time <? end_time) && negb (stop_event_is_set E k) then
    match fuel with
    | O => None
    | S fuel' =>
        match interval_ms interval w with
        | (Raise e, w1) => Some (Raise e, windows, w1)
        | (Return ms, w1) =>
            let batch_end := Z.min (current_time + 1000 * ms) end_time in
            match collect_single_symbol E symbol interval
                    (Some current_time) (Some batch_end) 1000 w1 with
            | (Raise e, w2) =>
                Some (Raise e, windows ++ [(current_time, batch_end)], w2)
            | (Return (collected, _), w2) =>
                fill_loop fuel' E symbol interval end_time (S k) batch_end
                  (total_collected + collected)
                  (windows ++ [(current_time, batch_end)]) w2
            end
        end
    end
  else Some (Return total_collected, windows, w).

Definition fill_missing_data (fuel : nat) (E : Env) (symbol interval : string)
    (days_back : Z) (w : World) : option (outcome Z * list (Z * Z) * World) :=
  let end_time := now E in
  let start_time := now E - days_ms days_back in
  fill_loop fuel E symbol interval end_time 0 start_time 0 [] w.

(** The loop of [collect_all_tokens_single] over the symbols returned by
    [get_active_tokens]; [k] numbers the tests of the stop event.  The
    start of the window is computed here, outside the [try] block of
    [collect_single_symbol], so a [KeyError] of [INTERVAL_MS] leaves the
    method.  The pause of a tenth of a second after each symbol leaves
    the state unchanged. *)
Fixpoint sweep_loop (E : Env) (interval : string) (limit : Z)
    (tokens : list string) (k : nat) (total_collected errors : Z) : M (Z * Z) :=
  match tokens with
  | [] => ret (total_collected, errors)
  | symbol :: rest =>
      if stop_event_is_set E k then ret (total_collected, errors)
      else
        do last_time <- get_last_collected_time symbol interval;
        do start_time <-
          (if truthy_opt last_time then
             do ms <- interval_ms interval;
             ret (or_else last_time 0 + ms)
           else ret (now E - days_ms 30));
        do r <- collect_single_symbol E symbol interval (Some start_time) None limit;
        sweep_loop E interval limit rest (S k) (total_collected + r.1)
          (if String.eqb r.2 "success" then errors else errors + 1)
  end.

Definition collect_all_tokens_single (E : Env) (interval : string) (limit : Z)
    (tokens : list string) : M (Z * Z) :=
  sweep_loop E interval limit tokens 0 0 0.

End CandleCollector.

(** ** Continuous mode: the scheduler, the task queue and the workers *)

Module Continuous.

Import CandleCollector.

(** The body of one iteration of [worker_thread] once a task has been
    dequeued: the start of the window is derived from the cursor and the
    job is run with [limit=100]; an exception is logged by the worker's
    own handler and goes no further. *)
Definition worker_job (E : Env) (symbol interval : string) : M unit :=
  fun w =>
    match (do last_time <- get_last_collected_time symbol interval;
           do start_time <-
             (if truthy_opt last_time then
                do ms <- interval_ms interval;
                ret (or_else last_time 0 + ms)
              else ret (now E - days_ms 30));
           collect_single_symbol E symbol interval (Some start_time) None 100) w with
    | (_, w1) => (Return tt, w1)
    end.

(** Where a worker thread stands. *)
Inductive worker : Type :=
  | Waiting                              (* blocked in [task_queue.get] *)
  | Running (task : string * string)     (* between [get] and [task_done] *)
  | Exited.                              (* left the loop *)

(** The shared state of continuous mode.  [issued] and [completed] are
    history: every task ever put on the queue, every task whose
    [task_done] has been reached. *)
Record system : Type := {
  task_queue : list (option (string * string));
  workers : list worker;
  world : World;
  issued : list (string * string);
  completed : list (string * string)
}.

(** [start_continuous_collection]: [num_workers] waiting workers, an
    empty queue. *)
Definition start (num_workers : nat) (w : World) : system :=
  {| task_queue := []; workers := repeat Waiting num_workers; world := w;
     issued := []; completed := [] |}.

(** The tasks a queue content stands for (sentinels dropped). *)
Definition tasks_of (q : list (option (string * string))) : list (string * string) :=
  omap id q.

(** The tasks a scheduling tick adds to a queue. *)
Definition enqueued_by (E : Env) (interval : string) (tokens : list string)
    (q : list (option (string * string))) : list (string * string) :=
  tasks_of (drop (length q) (_schedule_collection E interval tokens 0 q)).

(** One atomic move of the system:
    - a timer of the scheduler fires and [_schedule_collection] runs;
    - a waiting worker dequeues a task;
    - a waiting worker dequeues the sentinel and leaves;
    - a running worker finishes its job and calls [task_done]. *)
Inductive step : system -> system -> Prop :=
  | step_tick (E : Env) (interval : string) (tokens : list string) (s : system) :
      step s
        {| task_queue := _schedule_collection E interval tokens 0 (task_queue s);
           workers := workers s; world := world s;
           issued := issued s ++ enqueued_by E interval tokens (task_queue s);
           completed := completed s |}
  | step_take (i : nat) (task : string * string)
      (q : list (option (string * string))) (s : system) :
      task_queue s = Some task :: q ->
      workers s !! i = Some Waiting ->
      step s
        {| task_queue := q; workers := <[i := Running task]> (workers s);
           world := world s; issued := issued s; completed := completed s |}
  | step_sentinel (i : nat) (q : list (option (string * string))) (s : system) :
      task_queue s = None :: q ->
      workers s !! i = Some Waiting ->
      step s
        {| task_queue := q; workers := <[i := Exited]> (workers s);
           world := world s; issued := issued s; completed := completed s |}
  | step_done (E : Env) (i : nat) (task : string * string) (s : system) :
      workers s !! i = Some (Running task) ->
      step s
        {| task_queue := task_queue s; workers := <[i := Waiting]> (workers s);
           world := (worker_job E task.1 task.2 (world s)).2;
           issued := issued s; completed := completed s ++ [task] |}.

Inductive reachable (num_workers : nat) (w : World) : system -> Prop :=
  | reachable_start : reachable num_workers w (start num_workers w)
  | reachable_step (s s' : system) :
      reachable num_workers w s -> step s s' -> reachable num_workers w s'.

(** The task a worker holds, if any. *)
Definition in_flight_task (wk : worker) : option (string * string) :=
  match wk with
  | Running task => Some task
  | _ => None
  end.

(** Number of queued tasks for a pair, and number of tasks for it held by
    workers. *)
Definition pending (p : string * string) (s : system) : nat :=
  length (filter (fun t => t = p) (tasks_of (task_queue s))).

Definition in_flight (p : string * string) (s : system) : nat :=
  length (filter (fun t => t = p) (omap in_flight_task (workers s))).

Definition occurrences (p : string * string) (l : list (string * string)) : nat :=
  length (filter (fun t => t = p) l).

End Continuous.

(** ** class TechnicalIndicators

    Prices are modelled as exact rationals; the places where Python
    raises (a zero divisor, an index out of range, [max] of an empty
    sequence) are kept.  Periods are Python ints. *)

Module TechnicalIndicators.

(** [sum(xs)]. *)
Definition sum (xs : list Q) : Q := fold_left Qplus xs 0%Q.

(** [max(a, b)] and [min(a, b)]: the first argument unless the second is
    strictly larger (smaller). *)
Definition max2 (a b : Q) : Q := if Qlt_le_dec a b then b else a.
Definition min2 (a b : Q) : Q := if Qlt_le_dec b a then b else a.

(** [max(xs)] and [min(xs)] of a sequence. *)
Definition max_seq (xs : list Q) : outcome Q :=
  match xs with
  | [] => Raise (Exn ValueError "max() arg is an empty sequence")
  | x :: rest => Return (fold_left max2 rest x)
  end.

Definition min_seq (xs : list Q) : outcome Q :=
  match xs with
  | [] => Raise (Exn ValueError "min() arg is an empty sequence")
  | x :: rest => Return (fold_left min2 rest x)
  end.

(** [x / y] for numbers. *)
Definition div (x y : Q) : outcome Q :=
  if Qeq_bool y 0 then Raise (Exn ZeroDivisionError "division by zero")
  else Return (x / y)%Q.

Definition obind {A B} (o : outcome A) (k : A -> outcome B) : outcome B :=
  match o with
  | Return a => k a
  | Raise e => Raise e
  end.

Notation "'let?' x := o 'in' k" := (obind o (fun x => k))
  (at level 10, x name, o at level 100, k at level 200).

(** A [for] loop that appends one value per element and stops at the
    first exception. *)
Fixpoint for_each {A B} (body : A -> outcome B) (l : list A) : outcome (list B) :=
  match l with
  | [] => Return []
  | a :: rest =>
      let? b := body a in
      let? bs := for_each body rest in
      Return (b :: bs)
  end.

(** [[x for x in l if x is not None]]. *)
Definition not_none (l : list (option Q)) : list Q := omap id l.

(** [len([x for x in l if x is None])]. *)
Definition none_count (l : list (option Q)) : Z :=
  len (filter (fun x => x = None) l).

Definition sma (prices : list Q) (period : Z) : outcome (list (option Q)) :=
  if len prices <? period then Return (replicate_py (len prices) None)
  else
    for_each
      (fun i =>
         if i <? period - 1 then Return None
         else
           let? v := div (sum (slice prices (i - period + 1) (i + 1))) (inject_Z period) in
           Return (Some v))
      (range 0 (len prices)).

(** The loop of [ema]; [last] is [ema_values[-1]]. *)
Fixpoint ema_loop (alpha : Q) (prices : list Q) (idxs : list Z) (last : Q)
    : outcome (list (option Q)) :=
  match idxs with
  | [] => Return []
  | i :: rest =>
      let? p := index prices i in
      let v := (alpha * p + (1 - alpha) * last)%Q in
      let? vs := ema_loop alpha prices rest v in
      Return (Some v :: vs)
  end.

Definition ema (prices : list Q) (period : Z) : outcome (list (option Q)) :=
  if len prices <? period then Return (replicate_py (len prices) None)
  else
    let? alpha := div 2 (inject_Z (period + 1)) in
    let ema_values := replicate_py (period - 1) None in
    let? first := div (sum (slice prices 0 period)) (inject_Z period) in
    let? tail := ema_loop alpha prices (range period (len prices)) first in
    Return (ema_values ++ Some first :: tail)%list.

(** The value appended to [rsi_values] for given averages. *)
Definition rsi_value (avg_gain avg_loss : Q) : outcome Q :=
  if Qeq_bool avg_loss 0 then Return 100%Q
  else
    let? rs := div avg_gain avg_loss in
    let? q := div 100 (1 + rs) in
    Return (100 - q)%Q.

(** The second loop of [rsi]. *)
Fixpoint rsi_loop (period : Z) (gains losses : list Q) (idxs : list Z)
    (avg_gain avg_loss : Q) : outcome (list (option Q)) :=
  match idxs with
  | [] => Return []
  | i :: rest =>
      let? g := index gains i in
      let? avg_gain := div (avg_gain * inject_Z (period - 1) + g) (inject_Z period) in
      let? l := index losses i in
      let? avg_loss := div (avg_loss * inject_Z (period - 1) + l) (inject_Z period) in
      let? v := rsi_value avg_gain avg_loss in
      let? vs := rsi_loop period gains losses rest avg_gain avg_loss in
      Return (Some v :: vs)
  end.

Definition rsi (prices : list Q) (period : Z) : outcome (list (option Q)) :=
  if len prices <? period + 1 then Return (replicate_py (len prices) None)
  else
    let? deltas :=
      for_each (fun i => let? a := index prices i in
                         let? b := index prices (i - 1) in
                         Return (a - b)%Q)
        (range 1 (len prices)) in
    let gains := map (fun delta => max2 delta 0) deltas in
    let losses := map (fun delta => Qabs (min2 delta 0)) deltas in
    let rsi_values := replicate_py period None in
    let? avg_gain := div (sum (slice gains 0 period)) (inject_Z period) in
    let? avg_loss := div (sum (slice losses 0 period)) (inject_Z period) in
    let? first := rsi_value avg_gain avg_loss in
    let? tail := rsi_loop period gains losses (range period (len deltas)) avg_gain avg_loss in
    Return (rsi_values ++ Some first :: tail)%list.

(** The loops of [macd] that combine two lines position by position:
    [if a[i] is None or b[i] is None: append(None) else: append(a[i] -
    b[i])]; [b[i]] is read only when [a[i]] is not [None]. *)
Definition difference_line (n : Z) (a b : list (option Q)) : outcome (list (option Q)) :=
  for_each
    (fun i =>
       let? x := index a i in
       match x with
       | None => Return None
       | Some x =>
           let? y := index b i in
           match y with
           | None => Return None
           | Some y => Return (Some (x - y)%Q)
           end
       end)
    (range 0 n).

Definition macd (prices : list Q) (fast slow signal : Z)
    : outcome (list (option Q) * list (option Q) * list (option Q)) :=
  let? ema_fast := ema prices fast in
  let? ema_slow := ema prices slow in
  let? macd_line := difference_line (len prices) ema_fast ema_slow in
  let? signal_line := ema (not_none macd_line) signal in
  let signal_line := (replicate_py (none_count macd_line) None ++ signal_line)%list in
  let? histogram := difference_line (len macd_line) macd_line signal_line in
  Return (macd_line, signal_line, histogram).

Definition stochastic (highs lows closes : list Q) (k_period d_period : Z)
    : outcome (list (option Q) * list (option Q)) :=
  if negb (len highs =? len lows) || negb (len lows =? len closes) then
    Raise (Exn ValueError "Arrays devem ter o mesmo tamanho")
  else
    let? k_values :=
      for_each
        (fun i =>
           if i <? k_period - 1 then Return None
           else
             let? highest_high := max_seq (slice highs (i - k_period + 1) (i + 1)) in
             let? lowest_low := min_seq (slice lows (i - k_period + 1) (i + 1)) in
             if Qeq_bool highest_high lowest_low then Return (Some 50%Q)
             else
               let? c := index closes i in
               let? r := div (c - lowest_low) (highest_high - lowest_low) in
               Return (Some (r * 100)%Q))
        (range 0 (len closes)) in
    let? d_values := sma (not_none k_values) d_period in
    let d_values := (replicate_py (none_count k_values) None ++ d_values)%list in
    Return (k_values, d_values).

End TechnicalIndicators.

(** ** class IndicatorManager: the signal rules of [get_signals]

    One row of the query result; NULL columns are [None].  Decimal
    values and their conversion by [float] are exact rationals. *)

Module IndicatorManager.

Record indicator_row : Type := {
  ir_symbol : string;
  ir_current_price : Q;
  ir_rsi_14 : option Q;
  ir_macd_line : option Q;
  ir_macd_signal : option Q;
  ir_bb_upper : option Q;
  ir_bb_lower : option Q;
  ir_stoch_k : option Q;
  ir_stoch_d : option Q;
  ir_created_at : Z
}.

(** One entry of [signal['signals']]; only the RSI entries carry a
    ['value']. *)
Record signal : Type := {
  sg_type : string;
  sg_indicator : string;
  sg_value : option Q;
  sg_reason : string
}.

(** One entry of the result. *)
Record symbol_signals : Type := {
  ss_symbol : string;
  ss_price : Q;
  ss_timestamp : Z;
  ss_signals : list signal
}.

(** Truthiness of a nullable decimal column: not NULL and not zero. *)
Definition truthy_dec (o : option Q) : bool :=
  match o with
  | Some x => negb (Qeq_bool x 0)
  | None => false
  end.

(** [float(ind[col])] of a column known to be truthy. *)
Definition value (o : option Q) : Q := default 0%Q o.

Definition ltb (x y : Q) : bool := if Qlt_le_dec x y then true else false.
Definition leb (x y : Q) : bool := if Qlt_le_dec y x then false else true.

Definition rsi_signals (ind : indicator_row) : list signal :=
  if truthy_dec (ir_rsi_14 ind) then
    let rsi := value (ir_rsi_14 ind) in
    if ltb rsi 30 then
      [{| sg_type := "BUY"; sg_indicator := "RSI"; sg_value := Some rsi;
          sg_reason := "Oversold" |}]
    else if ltb 70 rsi then
      [{| sg_type := "SELL"; sg_indicator := "RSI"; sg_value := Some rsi;
          sg_reason := "Overbought" |}]
    else []
  else [].

Definition macd_signals (ind : indicator_row) : list signal :=
  if truthy_dec (ir_macd_line ind) && truthy_dec (ir_macd_signal ind) then
    let macd_line := value (ir_macd_line ind) in
    let macd_signal := value (ir_macd_signal ind) in
    if ltb macd_signal macd_line && ltb 0 macd_line then
      [{| sg_type := "BUY"; sg_indicator := "MACD"; sg_value := None;
          sg_reason := "Bullish crossover" |}]
    else if ltb macd_line macd_signal && ltb macd_line 0 then
      [{| sg_type := "SELL"; sg_indicator := "MACD"; sg_value := None;
          sg_reason := "Bearish crossover" |}]
    else []
  else [].

Definition bb_signals (ind : indicator_row) : list signal :=
  if truthy_dec (ir_bb_upper ind) && truthy_dec (ir_bb_lower ind) then
    let price := ir_current_price ind in
    let bb_upper := value (ir_bb_upper ind) in
    let bb_lower := value (ir_bb_lower ind) in
    if leb price bb_lower then
      [{| sg_type := "BUY"; sg_indicator := "BB"; sg_value := None;
          sg_reason := "Price at lower band" |}]
    else if leb bb_upper price then
      [{| sg_type := "SELL"; sg_indicator := "BB"; sg_value := None;
          sg_reason := "Price at upper band" |}]
    else []
  else [].

Definition stoch_signals (ind : indicator_row) : list signal :=
  if truthy_dec (ir_stoch_k ind) && truthy_dec (ir_stoch_d ind) then
    let stoch_k := value (ir_stoch_k ind) in
    let stoch_d := value (ir_stoch_d ind) in
    if ltb stoch_k 20 && ltb stoch_d 20 then
      [{| sg_type := "BUY"; sg_indicator := "STOCH"; sg_value := None;
          sg_reason := "Oversold" |}]
    else if ltb 80 stoch_k && ltb 80 stoch_d then
      [{| sg_type := "SELL"; sg_indicator := "STOCH"; sg_value := None;
          sg_reason := "Overbought" |}]
    else []
  else [].

(** The body of the loop: the entry built for one row. *)
Definition signals_of (ind : indicator_row) : symbol_signals :=
  {| ss_symbol := ir_symbol ind;
     ss_price := ir_current_price ind;
     ss_timestamp := ir_created_at ind;
     ss_signals :=
       rsi_signals ind ++ macd_signals ind ++ bb_signals ind ++ stoch_signals ind |}.

(** The loop of [get_signals] over the rows returned by the query: an
    entry is kept when it has at least one signal. *)
Fixpoint get_signals (indicators : list indicator_row) : list symbol_signals :=
  match indicators with
  | [] => []
  | ind :: rest =>
      match ss_signals (signals_of ind) with
      | [] => get_signals rest
      | _ :: _ => signals_of ind :: get_signals rest
      end
  end.

End IndicatorManager.

(** ** Vocabulary of the statements *)

Module Spec.




(** The delays slept after failed attempts [a], [a+1], ...:
    [retry_delay * (attempt + 1)]. *)
Definition backoff (E : Env) (a : Z) (n : nat) : list Z :=
  map (fun i => retry_delay (config E) * (a + Z.of_nat i + 1)) (seq 0 n).

(** The world after [n] sendings of [req] and the given sleeps. *)
Definition after_attempts (req : http_request) (n : nat) (sleeps : list Z)
    (w : World) : World :=
  set_sleep_log (sleep_log w ++ sleeps)
    (set_http_log (http_log w ++ repeat req n) w).

(** The event logged by the exception handler. *)
Definition error_row (E : Env) (symbol interval : string)
    (start_time end_time : option Z) (error_msg : string) : log_row :=
  {| lg_symbol := symbol; lg_interval := interval; lg_collection_type := "single";
     lg_start_time := or_else start_time 0;
     lg_end_time := or_else end_time (now E);
     lg_records_collected := 0; lg_status := "error";
     lg_error_message := Some error_msg; lg_execution_time := 0 |}.

(** The cursor row written by the exception handler. *)
Definition error_cursor (w : World) (symbol interval : string) (error_msg : string)
    : control_row :=
  {| last_collected_time :=
       Some (or_else
               (CandleCollector.select_max_open_time (candles w) symbol interval) 0);
     status := "error";
     error_count :=
       match collection_control w !! (symbol, interval) with
       | Some old => error_count old + 1
       | None => 1
       end;
     last_error := Some error_msg |}.

(** The event logged by a successful run. *)
Definition success_row (E : Env) (symbol interval : string) (end_time : option Z)
    (start inserted : Z) : log_row :=
  {| lg_symbol := symbol; lg_interval := interval; lg_collection_type := "single";
     lg_start_time := start; lg_end_time := or_else end_time (now E);
     lg_records_collected := inserted; lg_status := "success";
     lg_error_message := None; lg_execution_time := 0 |}.

(** The cursor row written by a successful run. *)
Definition active_cursor (last_time : Z) : control_row :=
  {| last_collected_time := Some last_time; status := "active";
     error_count := 0; last_error := None |}.

(** An indicator line is aligned with an input of [n] values when it has
    [n] entries and holds [None] exactly at the positions that have seen
    fewer than [history] values (position [i], counted from zero, has
    seen [i + 1]). *)
Definition aligned (n : nat) (history : Z) (out : list (option Q)) : Prop :=
  length out = n /\
  forall i x, out !! i = Some x -> (x = None <-> Z.of_nat i + 1 < history).

End Spec.

(** ** Sample data used by the examples *)

Module Fixtures.

Definition hour : Z := 3600000.

(** A kline of one hour opening at [open_t]. *)
Definition sample_kline (open_t close_t : Z) : kline :=
  {| k_open_time := open_t; k_open := "27000.10"; k_high := "27100.00";
     k_low := "26950.55"; k_close := "27050.00"; k_volume := "12.5";
     k_close_time := close_t; k_quote_volume := "338000.0"; k_trades := 420;
     k_taker_base := "6.1"; k_taker_quote := "165000.0" |}.

Definition hourly (n : Z) : kline := sample_kline (n * hour) (n * hour + hour - 1).

Definition ok_response (rows : list kline) : get_result :=
  GetResponse {| status_code := 200; reason := "OK"; json_body := Some rows |}.

Definition not_found : get_result :=
  GetResponse {| status_code := 404; reason := "Not Found"; json_body := None |}.

Definition garbled : get_result :=
  GetResponse {| status_code := 200; reason := "OK"; json_body := None |}.


(** An environment with the shipped configuration, no insert fault and
    no stop signal. *)
Definition env (now : Z) (session_get : nat -> http_request -> get_result) : Env :=
  {| now := now; session_get := session_get;
     execute_many_fault := fun _ _ => None;
     stop_event_is_set := fun _ => false;
     config := BINANCE_CONFIG |}.

(** The current time is the close time of the second candle returned. *)
Definition E_boundary : Env :=
  env (2 * hour - 1) (fun _ _ => ok_response [hourly 0; hourly 1; hourly 2]).



(** A client error, then a good answer. *)
Definition E_404_then_ok : Env :=
  env (1000 * hour)
    (fun k _ => match k with O => not_found | _ => ok_response [hourly 1] end).

(** A body that is not JSON, then a good answer. *)
Definition E_garbled_then_ok : Env :=
  env (1000 * hour)
    (fun k _ => match k with O => garbled | _ => ok_response [hourly 1] end).

(** The bulk insert is refused. *)
Definition E_insert_refused : Env :=
  {| now := 1000 * hour;
     session_get := fun _ _ => ok_response [hourly 1];
     execute_many_fault := fun _ _ => Some (Exn MySQLError "2013: Lost connection to MySQL server during query");
     stop_event_is_set := fun _ => false;
     config := BINANCE_CONFIG |}.

(** An upstream with nothing new. *)
Definition E_quiet : Env := env (1000 * hour) (fun _ _ => ok_response []).

Definition BTC_1h : string * string := ("BTCUSDT", "1h").

Import CandleCollector.


(** The world after one successful run at [E_boundary]. *)
Definition world_after_first_run : World :=
  (collect_single_symbol E_boundary "BTCUSDT" "1h" None None 1000 empty_world).2.

End Fixtures.

(** ** The ways a run can end *)

Module RunPaths.

Import CandleCollector Spec.

(** The four ways a run of [collect_single_symbol] can end, with the
    world it leaves.  [w1] is the world once the client is done: it has
    the tables of the start. *)
Inductive run_path (E : Env) (symbol interval : string) (end_time : option Z)
    (w : World) : outcome (Z * string) * World -> Prop :=
  | path_error (start : option Z) (e : exn) (w1 : World) :
      same_db w w1 ->
      (insert_log w1 = insert_log w \/
       exists batch, insert_log w1 = insert_log w ++ [batch]) ->
      run_path E symbol interval end_time w
        (on_exception E symbol interval start end_time e w1)
  | path_empty (w1 : World) :
      same_db w w1 -> insert_log w1 = insert_log w ->
      run_path E symbol interval end_time w (Return (0, "success"), w1)
  | path_nothing_closed (start : Z) (w1 : World) :
      same_db w w1 -> insert_log w1 = insert_log w ->
      run_path E symbol interval end_time w
        (Return (0, "success"),
         set_collection_logs
           (collection_logs w1 ++ [success_row E symbol interval end_time start 0])
           (set_insert_log (insert_log w1 ++ [[]]) w1))
  | path_stored (start : Z) (w1 : World) (klines : list kline)
        (c : candle_row) (cs : list candle_row) :
      same_db w w1 -> insert_log w1 = insert_log w ->
      convert_klines E symbol interval klines = c :: cs ->
      run_path E symbol interval end_time w
        (Return ((insert_ignore (candles w1) (c :: cs)).2, "success"),
         set_collection_logs
           (collection_logs w1 ++
            [success_row E symbol interval end_time start
               (insert_ignore (candles w1) (c :: cs)).2])
           (set_collection_control
              (<[(symbol, interval) := active_cursor (max_open_time c cs)]>
                 (collection_control w1))
              (set_candles (insert_ignore (candles w1) (c :: cs)).1
                 (set_insert_log (insert_log w1 ++ [c :: cs]) w1)))).

End RunPaths.

(** ** More sample data *)

Module Samples.

Import CandleCollector IndicatorManager Fixtures.

(** The upstream answers with the hours 2 and 3. *)
Definition E_two_hours : Env := env (1000 * hour) (fun _ _ => ok_response [hourly 2; hourly 3]).

(** A configuration that allows no attempt at all. *)
Definition E_no_attempt : Env :=
  {| now := 1000 * hour;
     session_get := fun _ _ => ok_response [hourly 1];
     execute_many_fault := fun _ _ => None;
     stop_event_is_set := fun _ => false;
     config := {| max_retries := 0; retry_delay := 1 |} |}.

(** The stop event is set when it is tested for the second time. *)
Definition E_stop_second : Env :=
  {| now := 1000 * hour;
     session_get := fun _ _ => ok_response [];
     execute_many_fault := fun _ _ => None;
     stop_event_is_set := fun k => match k with S O => true | _ => false end;
     config := BINANCE_CONFIG |}.

(** A store whose cursor for BTCUSDT on the interval "7m" is at hour 1. *)
Definition world_with_7m_cursor : World :=
  set_collection_control
    {[ ("BTCUSDT", "7m") :=
         {| last_collected_time := Some hour; status := "active";
            error_count := 0; last_error := None |} ]}
    empty_world.

Definition two_rows : list candle_row :=
  [parse_kline_data (hourly 2) "BTCUSDT" "1h";
   parse_kline_data (hourly 3) "BTCUSDT" "1h"].

(** A row of indicators: oversold RSI, everything else NULL. *)
Definition oversold_row : indicator_row :=
  {| ir_symbol := "BTCUSDT"; ir_current_price := 27000;
     ir_rsi_14 := Some 25%Q; ir_macd_line := None; ir_macd_signal := None;
     ir_bb_upper := None; ir_bb_lower := None;
     ir_stoch_k := None; ir_stoch_d := None; ir_created_at := 1700000000 |}.


(** Price series. *)
Definition rising : list Q := [1; 2; 2; 5]%Q.
Definition zigzag : list Q := [1; 3; 2; 5]%Q.
Definition sample_highs : list Q := [3; 4; 5]%Q.
Definition sample_lows : list Q := [1; 2; 3]%Q.
Definition sample_closes : list Q := [2; 3; 4]%Q.

End Samples.

(** * Properties *)

(** ** Interval table and polling cadence *)

Section IntervalClock.

Import CandleCollector.

Lemma INTERVAL_MS_lookup (interval : string) (ms : Z) :
  INTERVAL_MS !! interval = Some ms -> (interval, ms) ∈ INTERVAL_MS_items.
Proof. intros H. exact (elem_of_list_to_map_2 _ _ _ H). Qed.

Lemma INTERVAL_MS_positive (interval : string) (ms : Z) :
  INTERVAL_MS !! interval = Some ms -> 60000 <= ms.
Proof.
  intros H%INTERVAL_MS_lookup. unfold INTERVAL_MS_items in H.
  repeat (apply elem_of_cons in H as [H | H]; [inversion H; lia |]).
  inversion H.
Qed.

(** C8, as stated, fails: "15m" is a sub-hour interval and its cadence is
    15, not 5. *)
Lemma schedule_interval_15m_not_5 :
  INTERVAL_MS !! "15m" = Some 900000 /\ 900000 < 3600000 /\
  _get_schedule_interval "15m" = 15 /\ _get_schedule_interval "15m" <> 5.
Proof. repeat split; vm_compute; congruence. Qed.

(** C8 (amended): for every supported interval the cadence returned by
    [_get_schedule_interval] is 5 for 1m, 3m and 5m, 15 for 15m and 30m,
    60 for 1h and 2h, and 240 for every larger interval; read in minutes
    it is at most five times the interval, and from 5m upward it never
    exceeds the interval. *)
Theorem schedule_interval_table (interval : string) (ms : Z) :
  INTERVAL_MS !! interval = Some ms ->
  _get_schedule_interval interval =
    (if ms <=? 300000 then 5
     else if ms <=? 1800000 then 15
     else if ms <=? 7200000 then 60
     else 240) /\
  60000 * _get_schedule_interval interval <= 5 * ms /\
  (300000 <= ms -> 60000 * _get_schedule_interval interval <= ms).
Proof.
  intros H%INTERVAL_MS_lookup. unfold INTERVAL_MS_items in H.
  repeat (apply elem_of_cons in H as [H | H];
          [inversion H; subst; vm_compute; repeat split; congruence |]).
  inversion H.
Qed.

(** Witness for C8: the 30m interval is polled every 15 minutes. *)
Lemma schedule_interval_table_witness :
  INTERVAL_MS !! "30m" = Some 1800000 /\
  _get_schedule_interval "30m" = 15 /\
  60000 * _get_schedule_interval "30m" <= 1800000.
Proof.
  destruct (schedule_interval_table "30m" 1800000 eq_refl) as (Htable & _ & Hfiner).
  split; [reflexivity |]. split; [exact Htable | apply Hfiner; lia].
Defined.

End IntervalClock.

(** ** The upstream client: retries *)

Section Retry.

Import BinanceAPI Spec.

Variable E : Env.
Variable req : http_request.

Lemma backoff_S (a : Z) (n : nat) :
  backoff E a (S n) = retry_delay (config E) * (a + 1) :: backoff E (a + 1) n.
Proof.
  unfold backoff. rewrite <- cons_seq. cbn [map]. f_equal.
  - f_equal. lia.
  - rewrite <- seq_shift, map_map. apply map_ext. intros i. f_equal. lia.
Qed.

Lemma after_attempts_step (n : nat) (d : Z) (sleeps : list Z) (w : World) :
  after_attempts req n sleeps
    (set_sleep_log (sleep_log (set_http_log (http_log w ++ [req]) w) ++ [d])
       (set_http_log (http_log w ++ [req]) w)) =
  after_attempts req (S n) (d :: sleeps) w.
Proof.
  unfold after_attempts, set_sleep_log, set_http_log. cbn.
  rewrite <- !app_assoc. reflexivity.
Qed.

(** A run of [j] failing attempts then a success, inside the loop. *)
Lemma request_loop_success (errs : nat -> exn) (j : nat) (body : list kline) :
  forall (remaining : nat) (attempt : Z) (w : World),
    (j < remaining)%nat ->
    attempt + Z.of_nat remaining = max_retries (config E) ->
    (forall i, (i < j)%nat ->
       attempt_result E (length (http_log w) + i) req = Raise (errs i) /\
       is_RequestException (errs i) = true) ->
    attempt_result E (length (http_log w) + j) req = Return body ->
    request_loop E req remaining attempt w =
      (Return (Some body), after_attempts req (S j) (backoff E attempt j) w).
Proof.
  revert errs. induction j as [| j IH]; intros errs remaining attempt w Hlt Hsum Hfail Hok.
  - destruct remaining as [| k]; [lia |].
    cbn [request_loop]. unfold attempt_once. rewrite Nat.add_0_r in Hok. rewrite Hok.
    unfold after_attempts, backoff. cbn. rewrite app_nil_r.
    destruct w; reflexivity.
  - destruct remaining as [| k]; [lia |].
    cbn [request_loop]. unfold attempt_once.
    destruct (Hfail 0%nat ltac:(lia)) as [H0 Hreq]. rewrite Nat.add_0_r in H0.
    rewrite H0, Hreq.
    replace (attempt <? max_retries (config E) - 1) with true
      by (symmetry; apply Z.ltb_lt; lia).
    unfold bind, sleep. cbn beta iota.
    rewrite (IH (fun i => errs (S i)) k (attempt + 1)).
    + rewrite after_attempts_step, <- backoff_S. reflexivity.
    + lia.
    + lia.
    + intros i Hi. cbn. rewrite length_app. cbn.
      replace (length (http_log w) + 1 + i)%nat with (length (http_log w) + S i)%nat by lia.
      apply Hfail. lia.
    + cbn. rewrite length_app. cbn.
      replace (length (http_log w) + 1 + j)%nat with (length (http_log w) + S j)%nat by lia.
      exact Hok.
Qed.

(** Every remaining attempt fails: the last error is raised. *)
Lemma request_loop_exhausted (errs : nat -> exn) :
  forall (remaining : nat) (attempt : Z) (w : World),
    attempt + Z.of_nat (S remaining) = max_retries (config E) ->
    (forall i, (i <= remaining)%nat ->
       attempt_result E (length (http_log w) + i) req = Raise (errs i) /\
       is_RequestException (errs i) = true) ->
    request_loop E req (S remaining) attempt w =
      (Raise (errs remaining), after_attempts req (S remaining) (backoff E attempt remaining) w).
Proof.
  intros remaining. revert errs.
  induction remaining as [| k IH]; intros errs attempt w Hsum Hfail.
  - cbn [request_loop]. unfold attempt_once.
    destruct (Hfail 0%nat ltac:(lia)) as [H0 Hreq]. rewrite Nat.add_0_r in H0.
    rewrite H0, Hreq.
    replace (attempt <? max_retries (config E) - 1) with false
      by (symmetry; apply Z.ltb_ge; lia).
    unfold after_attempts, backoff. cbn. rewrite app_nil_r.
    destruct w; reflexivity.
  - change (request_loop E req (S (S k)) attempt w) with
      (match attempt_once E req w with
       | (Return body, w1) => (Return (Some body), w1)
       | (Raise e, w1) =>
           if is_RequestException e then
             if attempt <? max_retries (config E) - 1 then
               (exec sleep (retry_delay (config E) * (attempt + 1));
                request_loop E req (S k) (attempt + 1)) w1
             else (Raise e, w1)
           else (Raise e, w1)
       end).
    unfold attempt_once.
    destruct (Hfail 0%nat ltac:(lia)) as [H0 Hreq]. rewrite Nat.add_0_r in H0.
    rewrite H0, Hreq.
    replace (attempt <? max_retries (config E) - 1) with true
      by (symmetry; apply Z.ltb_lt; lia).
    unfold bind, sleep. cbn beta iota.
    rewrite (IH (fun i => errs (S i)) (attempt + 1)).
    + rewrite after_attempts_step, <- backoff_S. reflexivity.
    + lia.
    + intros i Hi. cbn. rewrite length_app. cbn.
      replace (length (http_log w) + 1 + i)%nat with (length (http_log w) + S i)%nat by lia.
      apply Hfail. lia.
Qed.

End Retry.

Section RetryPolicy.

Import BinanceAPI Spec Fixtures.

(** C6 (amended): [_make_request] treats every
    [requests.exceptions.RequestException] alike, and HTTP errors of any
    status (4xx included) and JSON decode errors are among them.  After
    [j] failed attempts it has slept [retry_delay * 1], ...,
    [retry_delay * j] (a linearly growing delay); if attempt [j + 1] is
    within [max_retries] and succeeds its body is returned, and once
    [max_retries] attempts have failed the last error is raised. *)
Theorem make_request_retries_every_request_error (E : Env) (endpoint : string)
    (params : list (string * pyval)) (w : World) (errs : nat -> exn) (j : nat) :
  let req := {| endpoint := endpoint; params := params |} in
  let n := Z.to_nat (max_retries (config E)) in
  (forall i, (i < j)%nat ->
     attempt_result E (length (http_log w) + i) req = Raise (errs i) /\
     is_RequestException (errs i) = true) ->
  (forall text, is_RequestException (Exn Timeout text) = true) /\
  (forall text, is_RequestException (Exn ConnectionError text) = true) /\
  (forall status text, is_RequestException (Exn (HTTPError status) text) = true) /\
  (forall text, is_RequestException (Exn JSONDecodeError text) = true) /\
  (forall body,
     (j < n)%nat ->
     attempt_result E (length (http_log w) + j) req = Return body ->
     _make_request E endpoint params w =
       (Return (Some body), after_attempts req (S j) (backoff E 0 j) w)) /\
  (j = n -> (0 < n)%nat ->
   _make_request E endpoint params w =
     (Raise (errs (n - 1)%nat), after_attempts req n (backoff E 0 (n - 1)) w)).
Proof.
  intros req n Hfail.
  do 4 (split; [reflexivity |]). split.
  - intros body Hlt Hok. unfold _make_request. fold req. fold n.
    apply (request_loop_success E req errs j body n 0 w Hlt); [lia | exact Hfail | exact Hok].
  - intros -> Hpos. unfold _make_request. fold req. fold n.
    destruct n as [| k] eqn:Hn; [lia |].
    replace (S k - 1)%nat with k by lia.
    apply (request_loop_exhausted E req errs k 0 w); [lia |].
    intros i Hi. apply Hfail. lia.
Qed.

(** Witness for C6: a 404 answer followed by a good answer. *)
Lemma make_request_retries_witness :
  _make_request E_404_then_ok "/api/v3/klines" [] empty_world =
    (Return (Some [hourly 1]),
     after_attempts {| endpoint := "/api/v3/klines"; params := [] |} 2 [1] empty_world).
Proof.
  refine (proj1 (proj2 (proj2 (proj2 (proj2
    (make_request_retries_every_request_error E_404_then_ok "/api/v3/klines" []
       empty_world (fun _ => Exn (HTTPError 404) "Client Error: Not Found") 1 _)))))
    [hourly 1] _ _).
  - intros i Hi. destruct i as [| i]; [split; reflexivity | lia].
  - vm_compute. lia.
  - reflexivity.
Defined.

(** C6, as stated, fails: a client error (404) and an undecodable body
    are both followed by a sleep and a second request, whose answer is
    returned. *)
Lemma client_and_decode_errors_are_retried :
  let req := {| endpoint := "/api/v3/klines"; params := [] |} in
  (exn_cls <$> match attempt_result E_404_then_ok 0 req with
               | Raise e => Some e
               | Return _ => None
               end) = Some (HTTPError 404) /\
  _make_request E_404_then_ok "/api/v3/klines" [] empty_world =
    (Return (Some [hourly 1]), after_attempts req 2 [1] empty_world) /\
  (exn_cls <$> match attempt_result E_garbled_then_ok 0 req with
               | Raise e => Some e
               | Return _ => None
               end) = Some JSONDecodeError /\
  _make_request E_garbled_then_ok "/api/v3/klines" [] empty_world =
    (Return (Some [hourly 1]), after_attempts req 2 [1] empty_world).
Proof. repeat split; vm_compute; reflexivity. Qed.

End RetryPolicy.

(** ** The collection job *)

Section CollectionJob.

Import BinanceAPI CandleCollector Spec.

Variable E : Env.

(** The requests of the client touch neither the tables nor the insert
    history. *)
Lemma request_loop_frame (req : http_request) (remaining : nat) :
  forall (attempt : Z) (w : World) r w',
    request_loop E req remaining attempt w = (r, w') ->
    same_db w w' /\ insert_log w' = insert_log w.
Proof.
  induction remaining as [| k IH]; intros attempt w r w' H.
  - inversion H; subst. repeat split.
  - cbn [request_loop] in H. unfold attempt_once in H.
    destruct (attempt_result E (length (http_log w)) req) as [body | e].
    + inversion H; subst. repeat split.
    + destruct (is_RequestException e); [| inversion H; subst; repeat split].
      destruct (attempt <? max_retries (config E) - 1);
        [| inversion H; subst; repeat split].
      unfold bind, sleep in H. cbn beta iota in H.
      apply IH in H. exact H.
Qed.

Lemma get_klines_frame (symbol interval : string) (start_time end_time : option Z)
    (limit : Z) (w : World) r w' :
  get_klines E symbol interval start_time end_time limit w = (r, w') ->
  same_db w w' /\ insert_log w' = insert_log w.
Proof. unfold get_klines, _make_request. apply request_loop_frame. Qed.

(** Window resolution only reads. *)
Lemma resolve_start_time_reads (symbol interval : string) (start_time : option Z)
    (w : World) r w' :
  resolve_start_time E symbol interval start_time w = (r, w') -> w' = w.
Proof.
  unfold resolve_start_time, bind, get_last_collected_time, interval_ms, ret, raise.
  destruct start_time; [intros H; inversion H; reflexivity |].
  destruct (truthy_opt _); [| intros H; inversion H; reflexivity].
  destruct (INTERVAL_MS !! interval); intros H; inversion H; reflexivity.
Qed.

(** The rows kept by the conversion loop are exactly the parsed rows
    whose close time is not after [now]. *)
Lemma convert_klines_filter (symbol interval : string) (klines : list kline) :
  convert_klines E symbol interval klines =
  map (fun k => parse_kline_data k symbol interval)
      (filter (fun k => k_close_time k <= now E) klines).
Proof.
  induction klines as [| k rest IH]; [reflexivity |].
  cbn [convert_klines]. rewrite filter_cons.
  destruct (Z.gtb_spec (k_close_time k) (now E)).
  - rewrite decide_False by lia. exact IH.
  - rewrite decide_True by lia. cbn [map]. f_equal. exact IH.
Qed.

Lemma convert_klines_closed (symbol interval : string) (klines : list kline) :
  Forall (fun c => close_time c <= now E) (convert_klines E symbol interval klines).
Proof.
  induction klines as [| k rest IH]; [constructor |].
  cbn [convert_klines].
  destruct (Z.gtb_spec (k_close_time k) (now E)); [exact IH |].
  constructor; [cbn; lia | exact IH].
Qed.

Lemma or_else_truthy (o : option Z) :
  or_else (if truthy_opt o then o else None) 0 = or_else o 0.
Proof. destruct o as [z |]; [| reflexivity]. cbn. destruct (truthy z) eqn:Ht; cbn; rewrite ?Ht; reflexivity. Qed.

Lemma on_exception_spec (symbol interval : string) (start_time end_time : option Z)
    (e : exn) (w : World) :
  on_exception E symbol interval start_time end_time e w =
  (Return (0, str e),
   set_collection_control
     (<[(symbol, interval) := error_cursor w symbol interval (str e)]>
        (collection_control w))
     (set_collection_logs
        (collection_logs w ++ [error_row E symbol interval start_time end_time (str e)]) w)).
Proof.
  unfold on_exception, bind, log_collection, get_last_candle_time,
    update_collection_control, ret, error_cursor, error_row.
  cbn. rewrite or_else_truthy, Z.sub_diag.
  destruct (collection_control w !! (symbol, interval)); reflexivity.
Qed.

End CollectionJob.

(** ** The candle store and the batch maximum *)

Section Store.

Import CandleCollector.

Lemma max_of_ge_init (xs : list Z) : forall x, x <= max_of x xs.
Proof.
  induction xs as [| y ys IH]; intros x; cbn; [lia |].
  etransitivity; [| apply IH]. lia.
Qed.

Lemma max_of_upper (xs : list Z) : forall x y, y ∈ x :: xs -> y <= max_of x xs.
Proof.
  induction xs as [| z zs IH]; intros x y Hy.
  - apply list_elem_of_singleton in Hy. subst. cbn. lia.
  - cbn. apply elem_of_cons in Hy as [-> | Hy].
    + etransitivity; [| apply max_of_ge_init]. lia.
    + apply elem_of_cons in Hy as [-> | Hy].
      * etransitivity; [| apply max_of_ge_init]. lia.
      * apply IH. right. exact Hy.
Qed.

Lemma max_of_attained (xs : list Z) : forall x, max_of x xs ∈ x :: xs.
Proof.
  induction xs as [| z zs IH]; intros x; [left |].
  specialize (IH (Z.max x z)). unfold max_of in *. cbn [fold_left].
  apply elem_of_cons in IH as [Heq | Hin].
  - rewrite Heq. destruct (Z.max_spec x z) as [[_ ->] | [_ ->]]; [right; left | left].
  - right; right. exact Hin.
Qed.

Lemma max_open_time_upper (c : candle_row) (cs : list candle_row) (c' : candle_row) :
  c' ∈ c :: cs -> open_time c' <= max_open_time c cs.
Proof.
  intros H. unfold max_open_time. apply max_of_upper.
  change (open_time c :: map open_time cs) with (map open_time (c :: cs)).
  apply list_elem_of_fmap. exists c'. split; [reflexivity | exact H].
Qed.

Lemma max_open_time_attained (c : candle_row) (cs : list candle_row) :
  exists c', c' ∈ c :: cs /\ open_time c' = max_open_time c cs.
Proof.
  pose proof (max_of_attained (map open_time cs) (open_time c)) as H.
  change (open_time c :: map open_time cs) with (map open_time (c :: cs)) in H.
  apply list_elem_of_fmap in H as (c' & Heq & Hin).
  exists c'. split; [exact Hin | symmetry; exact Heq].
Qed.

Lemma insert_ignore_keeps (rows : list candle_row) :
  forall tbl key row,
    tbl !! key = Some row -> (insert_ignore tbl rows).1 !! key = Some row.
Proof.
  induction rows as [| c rest IH]; intros tbl key row H; [exact H |].
  cbn [insert_ignore].
  destruct (tbl !! candle_key c) eqn:Hc; [apply IH; exact H |].
  specialize (IH (<[candle_key c := c]> tbl) key row).
  destruct (insert_ignore (<[candle_key c := c]> tbl) rest) as [tbl' n].
  apply IH. rewrite lookup_insert_ne; [exact H | congruence].
Qed.

(** After the bulk insert every row of the batch has its key stored. *)
Lemma insert_ignore_stored (rows : list candle_row) :
  forall tbl c, c ∈ rows -> is_Some ((insert_ignore tbl rows).1 !! candle_key c).
Proof.
  induction rows as [| r rest IH]; intros tbl c Hin; [inversion Hin |].
  cbn [insert_ignore].
  apply elem_of_cons in Hin as [-> | Hin].
  - destruct (tbl !! candle_key r) as [old |] eqn:Hr.
    + exists old. apply insert_ignore_keeps. exact Hr.
    + pose proof (insert_ignore_keeps rest (<[candle_key r := r]> tbl) (candle_key r) r
                    (lookup_insert_eq _ _ _)) as Hk.
      destruct (insert_ignore (<[candle_key r := r]> tbl) rest). exists r. exact Hk.
  - destruct (tbl !! candle_key r).
    + apply IH. exact Hin.
    + specialize (IH (<[candle_key r := r]> tbl) c Hin).
      destruct (insert_ignore (<[candle_key r := r]> tbl) rest). exact IH.
Qed.

(** The reported count is the growth of the table. *)
Lemma insert_ignore_count (rows : list candle_row) :
  forall tbl,
    Z.of_nat (size (insert_ignore tbl rows).1) =
    Z.of_nat (size tbl) + (insert_ignore tbl rows).2.
Proof.
  induction rows as [| r rest IH]; intros tbl; cbn [insert_ignore]; [cbn; lia |].
  destruct (tbl !! candle_key r) eqn:Hr; [apply IH |].
  specialize (IH (<[candle_key r := r]> tbl)).
  destruct (insert_ignore (<[candle_key r := r]> tbl) rest) as [tbl' n].
  cbn in *. rewrite IH, map_size_insert_None by exact Hr. lia.
Qed.

(** A batch made only of rows already stored changes nothing and counts
    zero. *)
Lemma insert_ignore_duplicates (rows : list candle_row) :
  forall tbl,
    (forall c, c ∈ rows -> is_Some (tbl !! candle_key c)) ->
    insert_ignore tbl rows = (tbl, 0).
Proof.
  induction rows as [| r rest IH]; intros tbl H; [reflexivity |].
  cbn [insert_ignore].
  destruct (H r ltac:(left)) as [old Hold]. rewrite Hold.
  apply IH. intros c Hc. apply H. right. exact Hc.
Qed.

End Store.

(** ** The paths through [collect_single_symbol] *)

Section Paths.

Import BinanceAPI CandleCollector Spec.

Variable E : Env.
Variables symbol interval : string.
Variables start_time end_time : option Z.
Variable limit : Z.

Local Abbreviation run := (collect_single_symbol E symbol interval start_time end_time limit).

Lemma run_resolve_raises (w : World) (e : exn) :
  resolve_start_time E symbol interval start_time w = (Raise e, w) ->
  run w = on_exception E symbol interval start_time end_time e w.
Proof.
  intros H. unfold collect_single_symbol, try_block. rewrite H. reflexivity.
Qed.

Lemma run_fetch_raises (w w1 : World) (start : Z) (e : exn) :
  resolve_start_time E symbol interval start_time w = (Return start, w) ->
  get_klines E symbol interval (Some start) end_time limit w = (Raise e, w1) ->
  run w = on_exception E symbol interval (Some start) end_time e w1.
Proof.
  intros Hres Hget. unfold collect_single_symbol, try_block.
  rewrite Hres. unfold fetch_and_store, bind. rewrite Hget. reflexivity.
Qed.

Lemma run_empty_fetch (w w1 : World) (start : Z) (klines : option (list kline)) :
  resolve_start_time E symbol interval start_time w = (Return start, w) ->
  get_klines E symbol interval (Some start) end_time limit w = (Return klines, w1) ->
  klines = None \/ klines = Some [] ->
  run w = (Return (0, "success"), w1).
Proof.
  intros Hres Hget Hk. unfold collect_single_symbol, try_block.
  rewrite Hres. unfold fetch_and_store, bind. rewrite Hget.
  destruct Hk as [-> | ->]; reflexivity.
Qed.

Lemma run_nothing_closed (w w1 : World) (start : Z) (k : kline) (ks : list kline) :
  resolve_start_time E symbol interval start_time w = (Return start, w) ->
  get_klines E symbol interval (Some start) end_time limit w =
    (Return (Some (k :: ks)), w1) ->
  convert_klines E symbol interval (k :: ks) = [] ->
  run w =
    (Return (0, "success"),
     set_collection_logs (collection_logs w1 ++ [success_row E symbol interval end_time start 0])
       (set_insert_log (insert_log w1 ++ [[]]) w1)).
Proof.
  intros Hres Hget Hconv. unfold collect_single_symbol, try_block.
  rewrite Hres. unfold fetch_and_store, bind. rewrite Hget, Hconv.
  cbn. rewrite Z.sub_diag. reflexivity.
Qed.

Lemma run_insert_raises (w w1 : World) (start : Z) (klines : list kline)
    (c : candle_row) (cs : list candle_row) (e : exn) :
  resolve_start_time E symbol interval start_time w = (Return start, w) ->
  get_klines E symbol interval (Some start) end_time limit w =
    (Return (Some klines), w1) ->
  convert_klines E symbol interval klines = c :: cs ->
  execute_many_fault E (length (insert_log w1)) (c :: cs) = Some e ->
  run w =
    on_exception E symbol interval (Some start) end_time e
      (set_insert_log (insert_log w1 ++ [c :: cs]) w1).
Proof.
  intros Hres Hget Hconv Hfault.
  destruct klines as [| k ks]; [discriminate Hconv |].
  unfold collect_single_symbol, try_block.
  rewrite Hres. unfold fetch_and_store, bind. rewrite Hget, Hconv.
  unfold insert_candles. rewrite Hfault. reflexivity.
Qed.

Lemma run_stored (w w1 : World) (start : Z) (klines : list kline)
    (c : candle_row) (cs : list candle_row) :
  resolve_start_time E symbol interval start_time w = (Return start, w) ->
  get_klines E symbol interval (Some start) end_time limit w =
    (Return (Some klines), w1) ->
  convert_klines E symbol interval klines = c :: cs ->
  execute_many_fault E (length (insert_log w1)) (c :: cs) = None ->
  run w =
    (Return ((insert_ignore (candles w1) (c :: cs)).2, "success"),
     set_collection_logs
       (collection_logs w1 ++
        [success_row E symbol interval end_time start (insert_ignore (candles w1) (c :: cs)).2])
       (set_collection_control
          (<[(symbol, interval) := active_cursor (max_open_time c cs)]>
             (collection_control w1))
          (set_candles (insert_ignore (candles w1) (c :: cs)).1
             (set_insert_log (insert_log w1 ++ [c :: cs]) w1)))).
Proof.
  intros Hres Hget Hconv Hfault.
  destruct klines as [| k ks]; [discriminate Hconv |].
  unfold collect_single_symbol, try_block.
  rewrite Hres. unfold fetch_and_store, bind. rewrite Hget, Hconv.
  unfold insert_candles. rewrite Hfault.
  change (candles (set_insert_log (insert_log w1 ++ [c :: cs]) w1)) with (candles w1).
  destruct (insert_ignore (candles w1) (c :: cs)) as [tbl n].
  unfold update_collection_control, log_collection, ret. cbn.
  rewrite Z.sub_diag.
  destruct (collection_control w1 !! (symbol, interval)); reflexivity.
Qed.

End Paths.

(** ** The collection job: main results *)

Section Job.

Import BinanceAPI CandleCollector Spec.

Variable E : Env.
Variables symbol interval : string.
Variables start_time end_time : option Z.
Variable limit : Z.

Local Abbreviation run := (collect_single_symbol E symbol interval start_time end_time limit).

Local Ltac world_simpl :=
  cbn [fst snd candles collection_control collection_logs http_log sleep_log
       insert_log set_candles set_collection_control set_collection_logs
       set_http_log set_sleep_log set_insert_log].

(** C1 (amended): whatever the fetch returns, every row of a batch that
    a run hands to [insert_candles] has a close time not after [now]: a
    row whose close time is strictly after [now] is never persisted.
    When the fetch returns rows, the batch is exactly the returned rows
    whose close time is at most [now], in order (a row closing at [now]
    is kept). *)
Theorem open_candles_never_persisted (w : World) :
  exists new,
    insert_log (run w).2 = insert_log w ++ new /\
    Forall (Forall (fun c => close_time c <= now E)) new /\
    (forall start klines w1,
       resolve_start_time E symbol interval start_time w = (Return start, w) ->
       get_klines E symbol interval (Some start) end_time limit w =
         (Return (Some klines), w1) ->
       klines <> [] ->
       new = [map (fun k => parse_kline_data k symbol interval)
                (filter (fun k => k_close_time k <= now E) klines)]).
Proof.
  destruct (resolve_start_time E symbol interval start_time w) as [[start | e] w0] eqn:Hres;
    pose proof (resolve_start_time_reads _ _ _ _ _ _ _ Hres) as ->.
  2:{ rewrite (run_resolve_raises _ _ _ _ _ _ _ _ Hres), on_exception_spec.
      exists []. split; [cbn; rewrite app_nil_r; reflexivity |].
      split; [constructor | intros start' klines' w1' Hr Hg Hne; congruence]. }
  destruct (get_klines E symbol interval (Some start) end_time limit w)
    as [[klines | e] w1] eqn:Hget;
    destruct (get_klines_frame _ _ _ _ _ _ _ _ _ Hget) as [_ Hins].
  2:{ rewrite (run_fetch_raises _ _ _ _ _ _ _ _ _ _ Hres Hget), on_exception_spec.
      exists []. split; [cbn; rewrite app_nil_r; exact Hins |].
      split; [constructor | intros start' klines' w1' Hr Hg Hne; congruence]. }
  destruct klines as [[| k ks] |].
  - rewrite (run_empty_fetch _ _ _ _ _ _ _ _ _ _ Hres Hget) by auto.
    exists []. split; [cbn; rewrite app_nil_r; exact Hins |].
    split; [constructor | intros start' klines' w1' Hr Hg Hne; congruence].
  - pose proof (convert_klines_closed E symbol interval (k :: ks)) as Hclosed.
    exists [convert_klines E symbol interval (k :: ks)].
    split; [| split].
    + destruct (convert_klines E symbol interval (k :: ks)) as [| c cs] eqn:Hconv.
      * rewrite (run_nothing_closed _ _ _ _ _ _ _ _ _ _ _ Hres Hget Hconv).
        cbn. rewrite Hins. reflexivity.
      * destruct (execute_many_fault E (length (insert_log w1)) (c :: cs)) as [e |] eqn:Hf.
        -- rewrite (run_insert_raises _ _ _ _ _ _ _ _ _ _ _ _ _ Hres Hget Hconv Hf),
             on_exception_spec.
           cbn. rewrite Hins. reflexivity.
        -- rewrite (run_stored _ _ _ _ _ _ _ _ _ _ _ _ Hres Hget Hconv Hf).
           cbn. rewrite Hins. reflexivity.
    + constructor; [exact Hclosed | constructor].
    + intros start' klines' w1' Hr Hg _.
      assert (klines' = k :: ks) as -> by congruence.
      rewrite convert_klines_filter. reflexivity.
  - rewrite (run_empty_fetch _ _ _ _ _ _ _ _ _ _ Hres Hget) by auto.
    exists []. split; [cbn; rewrite app_nil_r; exact Hins |].
    split; [constructor | intros start' klines' w1' Hr Hg Hne; congruence].
Qed.

(** C4: a run that succeeds with a non-empty batch leaves the cursor at
    the maximum open time of the batch, active, with a zero error count,
    and every row of the batch is stored; a run whose fetch is empty
    returns zero records with success and changes no table. *)
Theorem cursor_after_successful_run (w : World)
    (start : Z) (klines : option (list kline)) (w1 : World) :
  resolve_start_time E symbol interval start_time w = (Return start, w) ->
  get_klines E symbol interval (Some start) end_time limit w = (Return klines, w1) ->
  (forall all c cs,
     klines = Some all ->
     convert_klines E symbol interval all = c :: cs ->
     execute_many_fault E (length (insert_log w)) (c :: cs) = None ->
     (exists inserted, (run w).1 = Return (inserted, "success")) /\
     collection_control (run w).2 !! (symbol, interval) =
       Some {| last_collected_time := Some (max_open_time c cs);
               status := "active"; error_count := 0; last_error := None |} /\
     (exists c', c' ∈ c :: cs /\ open_time c' = max_open_time c cs) /\
     (forall c', c' ∈ c :: cs ->
        open_time c' <= max_open_time c cs /\
        is_Some (candles (run w).2 !! candle_key c'))) /\
  (klines = None \/ klines = Some [] ->
     (run w).1 = Return (0, "success") /\ same_db w (run w).2).
Proof.
  intros Hres Hget.
  destruct (get_klines_frame _ _ _ _ _ _ _ _ _ Hget) as [Hdb Hins].
  split.
  - intros all c cs -> Hconv Hfault. rewrite <- Hins in Hfault.
    rewrite (run_stored _ _ _ _ _ _ _ _ _ _ _ _ Hres Hget Hconv Hfault).
    split; [eexists; reflexivity |].
    split; [cbn; apply lookup_insert_eq |].
    split; [apply max_open_time_attained |].
    intros c' Hc'. split; [apply max_open_time_upper; exact Hc' |].
    world_simpl. apply insert_ignore_stored. exact Hc'.
  - intros Hk. rewrite (run_empty_fetch _ _ _ _ _ _ _ _ _ _ Hres Hget Hk).
    split; [reflexivity | exact Hdb].
Qed.

(** C9: when the batch left by the filter is non-empty and the bulk
    insert does not fail, the cursor moves to the maximum open time of
    the batch whatever the number of rows newly inserted; the result and
    the success event carry that number (the growth of the table), which
    is zero, not the batch size, when every row was already stored. *)
Theorem cursor_advances_on_duplicates (w : World)
    (start : Z) (klines : list kline) (w1 : World)
    (c : candle_row) (cs : list candle_row) :
  resolve_start_time E symbol interval start_time w = (Return start, w) ->
  get_klines E symbol interval (Some start) end_time limit w =
    (Return (Some klines), w1) ->
  convert_klines E symbol interval klines = c :: cs ->
  execute_many_fault E (length (insert_log w)) (c :: cs) = None ->
  let inserted := (insert_ignore (candles w) (c :: cs)).2 in
  (run w).1 = Return (inserted, "success") /\
  collection_control (run w).2 !! (symbol, interval) =
    Some {| last_collected_time := Some (max_open_time c cs);
            status := "active"; error_count := 0; last_error := None |} /\
  collection_logs (run w).2 =
    collection_logs w ++
    [{| lg_symbol := symbol; lg_interval := interval; lg_collection_type := "single";
        lg_start_time := start; lg_end_time := or_else end_time (now E);
        lg_records_collected := inserted; lg_status := "success";
        lg_error_message := None; lg_execution_time := 0 |}] /\
  Z.of_nat (size (candles (run w).2)) = Z.of_nat (size (candles w)) + inserted /\
  ((forall c', c' ∈ c :: cs -> is_Some (candles w !! candle_key c')) ->
   inserted = 0 /\ inserted <> len (c :: cs) /\ candles (run w).2 = candles w).
Proof.
  intros Hres Hget Hconv Hfault inserted.
  destruct (get_klines_frame _ _ _ _ _ _ _ _ _ Hget) as [(Hc & Hctl & Hlog) Hins].
  rewrite <- Hins in Hfault.
  rewrite (run_stored _ _ _ _ _ _ _ _ _ _ _ _ Hres Hget Hconv Hfault).
  subst inserted. rewrite <- Hc, <- Hlog. cbn [fst snd].
  split; [reflexivity |].
  split; [cbn; apply lookup_insert_eq |].
  split; [reflexivity |].
  split; [world_simpl; apply insert_ignore_count |].
  intros Hdup. rewrite (insert_ignore_duplicates _ _ Hdup). world_simpl.
  split; [reflexivity |]. split; [unfold len; cbn; lia | reflexivity].
Qed.

End Job.

Section MaxOpenTime.

Import CandleCollector.

(** [select_max_open_time] is the largest open time stored for the pair,
    and NULL exactly when nothing is stored for it. *)
Lemma select_max_open_time_spec (tbl : gmap (string * string * Z) candle_row)
    (symbol interval : string) :
  match select_max_open_time tbl symbol interval with
  | None => forall key row, tbl !! key = Some row -> key.1 <> (symbol, interval)
  | Some m =>
      (exists key row,
         tbl !! key = Some row /\ key.1 = (symbol, interval) /\ open_time row = m) /\
      (forall key row,
         tbl !! key = Some row -> key.1 = (symbol, interval) -> open_time row <= m)
  end.
Proof.
  unfold select_max_open_time.
  apply (map_fold_weak_ind
    (fun acc (m : gmap (string * string * Z) candle_row) =>
       match acc with
       | None => forall key row, m !! key = Some row -> key.1 <> (symbol, interval)
       | Some mx =>
           (exists key row,
              m !! key = Some row /\ key.1 = (symbol, interval) /\ open_time row = mx) /\
           (forall key row,
              m !! key = Some row -> key.1 = (symbol, interval) -> open_time row <= mx)
       end)).
  - intros key row H. rewrite lookup_empty in H. discriminate.
  - intros i x m r Hi IH.
    destruct (decide (i.1 = (symbol, interval))) as [Heq | Hne].
    + destruct r as [mx |].
      * destruct IH as [(key & row & Hk & Hp & Hm) Hub]. split.
        -- destruct (Z.max_spec mx (open_time x)) as [[_ ->] | [_ ->]].
           ++ exists i, x. rewrite lookup_insert_eq. auto.
           ++ exists key, row. rewrite lookup_insert_ne by congruence. auto.
        -- intros key' row' Hl Hp'.
           destruct (decide (i = key')) as [-> | Hn].
           ++ rewrite lookup_insert_eq in Hl. inversion Hl; subst. lia.
           ++ rewrite lookup_insert_ne in Hl by exact Hn.
              specialize (Hub _ _ Hl Hp'). lia.
      * split.
        -- exists i, x. rewrite lookup_insert_eq. auto.
        -- intros key' row' Hl Hp'.
           destruct (decide (i = key')) as [-> | Hn].
           ++ rewrite lookup_insert_eq in Hl. inversion Hl; subst. lia.
           ++ rewrite lookup_insert_ne in Hl by exact Hn.
              exfalso. exact (IH _ _ Hl Hp').
    + destruct r as [mx |].
      * destruct IH as [(key & row & Hk & Hp & Hm) Hub]. split.
        -- exists key, row. rewrite lookup_insert_ne by congruence. auto.
        -- intros key' row' Hl Hp'.
           destruct (decide (i = key')) as [-> | Hn]; [contradiction |].
           rewrite lookup_insert_ne in Hl by exact Hn. eauto.
      * intros key' row' Hl.
        destruct (decide (i = key')) as [-> | Hn]; [exact Hne |].
        rewrite lookup_insert_ne in Hl by exact Hn. eauto.
Qed.

End MaxOpenTime.

Section JobFailure.

Import BinanceAPI CandleCollector Spec.

Variable E : Env.
Variables symbol interval : string.
Variables start_time end_time : option Z.
Variable limit : Z.

Local Abbreviation run := (collect_single_symbol E symbol interval start_time end_time limit).


End JobFailure.

Section WindowResolution.

Import BinanceAPI CandleCollector Spec.

Variable E : Env.
Variables symbol interval : string.
Variable end_time : option Z.
Variable limit : Z.


End WindowResolution.

(** ** Gap-fill *)

Section GapFill.

Import BinanceAPI CandleCollector Spec.

Variable E : Env.
Variables symbol interval : string.






End GapFill.

(** ** Continuous mode *)

Section ContinuousMode.

Import CandleCollector Continuous.

Lemma schedule_loop_extends (E : Env) (interval : string) (tokens : list string) :
  forall k q, exists added,
    schedule_loop E interval tokens k q = q ++ added.
Proof.
  induction tokens as [| symbol rest IH]; intros k q; cbn [schedule_loop].
  - exists []. rewrite app_nil_r. reflexivity.
  - destruct (stop_event_is_set E k).
    + exists []. rewrite app_nil_r. reflexivity.
    + destruct (IH (S k) (q ++ [Some (symbol, interval)])) as (added & ->).
      exists (Some (symbol, interval) :: added). rewrite <- app_assoc. reflexivity.
Qed.

Lemma schedule_loop_no_stop (E : Env) (interval : string) (tokens : list string) :
  (forall k, stop_event_is_set E k = false) ->
  forall k q,
    schedule_loop E interval tokens k q =
    q ++ map (fun symbol => Some (symbol, interval)) tokens.
Proof.
  intros Hstop. induction tokens as [| symbol rest IH]; intros k q; cbn [schedule_loop map].
  - rewrite app_nil_r. reflexivity.
  - rewrite Hstop, IH, <- app_assoc. reflexivity.
Qed.

Lemma tasks_of_app (q1 q2 : list (option (string * string))) :
  tasks_of (q1 ++ q2) = tasks_of q1 ++ tasks_of q2.
Proof. unfold tasks_of. apply omap_app. Qed.

Lemma occurrences_app (p : string * string) (l1 l2 : list (string * string)) :
  occurrences p (l1 ++ l2) = (occurrences p l1 + occurrences p l2)%nat.
Proof. unfold occurrences. rewrite filter_app, length_app. reflexivity. Qed.

Lemma tick_adds_enqueued (E : Env) (interval : string) (tokens : list string)
    (q : list (option (string * string))) :
  tasks_of (_schedule_collection E interval tokens 0 q) =
  tasks_of q ++ enqueued_by E interval tokens q.
Proof.
  unfold enqueued_by, _schedule_collection.
  destruct (schedule_loop_extends E interval tokens 0%nat q) as (added & ->).
  rewrite drop_app_length. apply tasks_of_app.
Qed.

Lemma occurrences_cons (p t : string * string) (l : list (string * string)) :
  occurrences p (t :: l) = (occurrences p [t] + occurrences p l)%nat.
Proof. change (t :: l) with ([t] ++ l). apply occurrences_app. Qed.

Lemma tasks_of_cons (o : option (string * string)) (q : list (option (string * string))) :
  tasks_of (o :: q) = tasks_of [o] ++ tasks_of q.
Proof. change (o :: q) with ([o] ++ q). apply tasks_of_app. Qed.

(** Replacing the state of one worker. *)
Lemma in_flight_replace (p : string * string) (ws : list worker) (i : nat)
    (old new : worker) :
  ws !! i = Some old ->
  (occurrences p (omap in_flight_task (<[i := new]> ws))
   + occurrences p (omap in_flight_task [old])
   = occurrences p (omap in_flight_task ws)
     + occurrences p (omap in_flight_task [new]))%nat.
Proof.
  intros Hi.
  rewrite <- (take_drop_middle ws i old Hi) at 2.
  rewrite insert_take_drop by (eapply lookup_lt_Some; exact Hi).
  rewrite !omap_app, !occurrences_app.
  change (old :: drop (S i) ws) with ([old] ++ drop (S i) ws).
  change (new :: drop (S i) ws) with ([new] ++ drop (S i) ws).
  rewrite !omap_app, !occurrences_app. lia.
Qed.

Lemma occurrences_single (p t : string * string) :
  occurrences p [t] = if decide (t = p) then 1%nat else 0%nat.
Proof. unfold occurrences. rewrite filter_cons, filter_nil. destruct (decide (t = p)); reflexivity. Qed.

(** Every task ever issued is queued, held by a worker, or completed. *)
Lemma jobs_conserved (num_workers : nat) (w : World) (s : system) :
  reachable num_workers w s ->
  forall p,
    (pending p s + in_flight p s + occurrences p (completed s))%nat =
    occurrences p (issued s).
Proof.
  induction 1 as [| s s' Hreach IH Hstep]; intros p.
  - unfold pending, in_flight, occurrences, start. cbn.
    assert (Hw : omap in_flight_task (repeat Waiting num_workers) = []).
    { induction num_workers as [| n IHn]; [reflexivity | exact IHn]. }
    rewrite Hw. reflexivity.
  - specialize (IH p). unfold pending, in_flight in *.
    fold (occurrences p (tasks_of (task_queue s))) in IH.
    fold (occurrences p (omap in_flight_task (workers s))) in IH.
    fold (occurrences p (tasks_of (task_queue s'))).
    fold (occurrences p (omap in_flight_task (workers s'))).
    destruct Hstep as [E interval tokens s | i task q s Hq Hw | i q s Hq Hw | E i task s Hw];
      cbn [task_queue workers issued completed] in *.
    + rewrite tick_adds_enqueued, !occurrences_app. lia.
    + pose proof (in_flight_replace p _ _ _ (Running task) Hw) as Hrep.
      rewrite Hq, tasks_of_cons, occurrences_app in IH.
      change (tasks_of [Some task]) with [task] in IH.
      change (omap in_flight_task [Waiting]) with (@nil (string * string)) in Hrep.
      change (omap in_flight_task [Running task]) with [task] in Hrep.
      change (occurrences p []) with 0%nat in Hrep. lia.
    + pose proof (in_flight_replace p _ _ _ Exited Hw) as Hrep.
      rewrite Hq, tasks_of_cons, occurrences_app in IH.
      change (tasks_of [None]) with (@nil (string * string)) in IH.
      change (omap in_flight_task [Waiting]) with (@nil (string * string)) in Hrep.
      change (omap in_flight_task [Exited]) with (@nil (string * string)) in Hrep.
      change (occurrences p []) with 0%nat in *. lia.
    + pose proof (in_flight_replace p _ _ _ Waiting Hw) as Hrep.
      rewrite occurrences_app.
      change (omap in_flight_task [Waiting]) with (@nil (string * string)) in Hrep.
      change (omap in_flight_task [Running task]) with [task] in Hrep.
      change (occurrences p []) with 0%nat in Hrep. lia.
Qed.

(** C7 (amended): a scheduling tick, absent a stop signal, appends one
    task for every active symbol to the queue whatever is already
    pending or in flight; in every reachable state the tasks of a pair
    that are pending or in flight are those issued and not yet
    completed, a number that grows with each tick and is not bounded by
    one. *)
Theorem tick_enqueues_unconditionally (num_workers : nat) (w : World) (s : system)
    (E : Env) (interval : string) (tokens : list string) :
  reachable num_workers w s ->
  (forall k, stop_event_is_set E k = false) ->
  let s' :=
    {| task_queue := _schedule_collection E interval tokens 0 (task_queue s);
       workers := workers s; world := world s;
       issued := issued s ++ enqueued_by E interval tokens (task_queue s);
       completed := completed s |} in
  reachable num_workers w s' /\
  task_queue s' = task_queue s ++ map (fun symbol => Some (symbol, interval)) tokens /\
  (forall symbol,
     (pending (symbol, interval) s' + in_flight (symbol, interval) s')%nat =
     (pending (symbol, interval) s + in_flight (symbol, interval) s
      + length (filter (fun t => t = symbol) tokens))%nat) /\
  (forall p,
     (pending p s + in_flight p s + occurrences p (completed s))%nat =
     occurrences p (issued s) /\
     (pending p s' + in_flight p s' + occurrences p (completed s'))%nat =
     occurrences p (issued s')).
Proof.
  intros Hreach Hstop s'.
  assert (Hreach' : reachable num_workers w s').
  { eapply reachable_step; [exact Hreach | apply step_tick]. }
  split; [exact Hreach' |].
  assert (Hq : task_queue s' =
               task_queue s ++ map (fun symbol => Some (symbol, interval)) tokens).
  { unfold s', _schedule_collection. cbn [task_queue].
    apply schedule_loop_no_stop. exact Hstop. }
  split; [exact Hq |].
  split;
    [| intros p; split;
       [exact (jobs_conserved _ _ _ Hreach p) | exact (jobs_conserved _ _ _ Hreach' p)]].
  intros symbol. unfold pending, in_flight. rewrite Hq. cbn [workers s'].
  rewrite tasks_of_app, filter_app, length_app.
  assert (Hcount : forall l : list string,
            length (filter (fun t => t = (symbol, interval))
                      (tasks_of (map (fun symbol => Some (symbol, interval)) l))) =
            length (filter (fun t => t = symbol) l)).
  { induction l as [| a l IHl]; [reflexivity |].
    cbn [map]. rewrite tasks_of_cons, filter_app, length_app, IHl.
    change (tasks_of [Some (a, interval)]) with [(a, interval)].
    rewrite !filter_cons, filter_nil.
    destruct (decide (a = symbol)) as [-> | Hne].
    - rewrite decide_True by reflexivity. reflexivity.
    - rewrite decide_False by congruence. reflexivity. }
  rewrite Hcount. lia.
Qed.

End ContinuousMode.

(** ** Python sequences *)

Section Sequences.

Lemma len_nonneg {A} (l : list A) : 0 <= len l.
Proof. unfold len. lia. Qed.

Lemma length_range (a b : Z) : length (range a b) = Z.to_nat (b - a).
Proof. unfold range. rewrite length_map, length_seq. reflexivity. Qed.

Lemma lookup_range (a b : Z) (i : nat) (x : Z) :
  range a b !! i = Some x <-> x = a + Z.of_nat i /\ a + Z.of_nat i < b.
Proof.
  unfold range. rewrite list_lookup_fmap_Some. split.
  - intros (k & -> & Hk). apply lookup_seq in Hk as [-> Hlt]. split; [reflexivity | lia].
  - intros [-> Hlt]. exists i. split; [reflexivity |]. apply lookup_seq. split; [reflexivity | lia].
Qed.

Lemma elem_of_range (a b x : Z) : x ∈ range a b -> a <= x < b.
Proof.
  intros H. apply list_elem_of_lookup in H as (i & Hi).
  apply lookup_range in Hi. lia.
Qed.

Lemma length_replicate_py {A} (n : Z) (x : A) :
  length (replicate_py n x) = Z.to_nat n.
Proof. unfold replicate_py. apply repeat_length. Qed.

Lemma index_in_range {A} (l : list A) (i : Z) :
  0 <= i < len l -> exists x, index l i = Return x /\ l !! Z.to_nat i = Some x.
Proof.
  intros Hi. unfold index, len in *.
  replace (i <? 0) with false by (symmetry; apply Z.ltb_ge; lia).
  replace (i <? 0) with false by (symmetry; apply Z.ltb_ge; lia).
  replace (Z.of_nat (length l) <=? i) with false by (symmetry; apply Z.leb_gt; lia).
  cbn [orb].
  destruct (l !! Z.to_nat i) as [x |] eqn:Hn.
  - exists x. split; reflexivity.
  - apply lookup_ge_None in Hn. lia.
Qed.

(** A slice inside the bounds is never empty. *)
Lemma slice_inside {A} (l : list A) (lo hi : Z) :
  0 <= lo -> lo < hi -> hi <= len l ->
  slice l lo hi = take (Z.to_nat (hi - lo)) (drop (Z.to_nat lo) l) /\
  length (slice l lo hi) = Z.to_nat (hi - lo).
Proof.
  intros Hlo Hlt Hhi. unfold slice, clamp, len in *.
  replace (lo <? 0) with false by (symmetry; apply Z.ltb_ge; lia).
  replace (hi <? 0) with false by (symmetry; apply Z.ltb_ge; lia).
  rewrite !Z.min_l by lia.
  split; [reflexivity |].
  rewrite length_firstn, length_skipn. lia.
Qed.

Lemma slice_Forall {A} (P : A -> Prop) (l : list A) (lo hi : Z) :
  Forall P l -> Forall P (slice l lo hi).
Proof. intros H. unfold slice. apply Forall_take, Forall_drop, H. Qed.

End Sequences.

(** ** Indicator functions *)

Section Indicators.

Import TechnicalIndicators.

Lemma for_each_total {A B} (body : A -> outcome B) (f : A -> B) (l : list A) :
  (forall a, a ∈ l -> body a = Return (f a)) ->
  for_each body l = Return (map f l).
Proof.
  induction l as [| a rest IH]; intros H; [reflexivity |].
  cbn [for_each map]. rewrite (H a) by left. cbn [obind].
  rewrite IH by (intros b Hb; apply H; right; exact Hb). reflexivity.
Qed.

Lemma Qeq_bool_false (x y : Q) : ~ (x == y)%Q -> Qeq_bool x y = false.
Proof.
  intros H. destruct (Qeq_bool x y) eqn:Hb; [| reflexivity].
  apply Qeq_bool_iff in Hb. contradiction.
Qed.

Lemma div_by_int (x : Q) (n : Z) : n <> 0 -> div x (inject_Z n) = Return (x / inject_Z n)%Q.
Proof.
  intros Hn. unfold div. rewrite Qeq_bool_false; [reflexivity |].
  unfold Qeq, inject_Z. cbn. lia.
Qed.

Lemma inject_Z_pos (n : Z) : 0 < n -> (0 < inject_Z n)%Q.
Proof. intros H. unfold Qlt, inject_Z. cbn. lia. Qed.

Lemma inject_Z_nonneg (n : Z) : 0 <= n -> (0 <= inject_Z n)%Q.
Proof. intros H. unfold Qle, inject_Z. cbn. lia. Qed.

Lemma Qdiv_nonneg (x y : Q) : (0 <= x)%Q -> (0 < y)%Q -> (0 <= x / y)%Q.
Proof.
  intros Hx Hy. unfold Qdiv. apply Qmult_le_0_compat; [exact Hx |].
  apply Qlt_le_weak, Qinv_lt_0_compat. exact Hy.
Qed.

Lemma sum_nonneg_from (xs : list Q) :
  Forall (fun x => (0 <= x)%Q) xs ->
  forall acc, (0 <= acc)%Q -> (0 <= fold_left Qplus xs acc)%Q.
Proof.
  induction 1 as [| x xs Hx _ IH]; intros acc Hacc; [exact Hacc |].
  cbn [fold_left]. apply IH.
  replace 0%Q with (0 + 0)%Q by reflexivity. apply Qplus_le_compat; assumption.
Qed.

Lemma sum_nonneg (xs : list Q) :
  Forall (fun x => (0 <= x)%Q) xs -> (0 <= sum xs)%Q.
Proof. intros H. apply sum_nonneg_from; [exact H | apply Qle_refl]. Qed.

Lemma max2_zero_nonneg (x : Q) : (0 <= max2 x 0)%Q.
Proof. unfold max2. destruct (Qlt_le_dec x 0); [apply Qle_refl | assumption]. Qed.

(** With non-negative averages the value appended by [rsi] is defined. *)
Lemma rsi_value_defined (avg_gain avg_loss : Q) :
  (0 <= avg_gain)%Q -> (0 <= avg_loss)%Q ->
  exists v, rsi_value avg_gain avg_loss = Return v.
Proof.
  intros Hg Hl. unfold rsi_value.
  destruct (Qeq_bool avg_loss 0) eqn:Hz; [eauto |].
  apply Qeq_bool_neq in Hz.
  assert (Hpos : (0 < avg_loss)%Q).
  { destruct (Qlt_le_dec 0 avg_loss) as [H | H]; [exact H |].
    exfalso. apply Hz. apply Qle_antisym; assumption. }
  unfold div at 1. rewrite Qeq_bool_false by exact Hz. cbn [obind].
  pose proof (Qdiv_nonneg _ _ Hg Hpos) as Hrs.
  unfold div. rewrite Qeq_bool_false; [cbn [obind]; eauto |].
  intros Heq. set (rs := (avg_gain / avg_loss)%Q) in *. clearbody rs. lra.
Qed.

End Indicators.

Section Alignment.

Import TechnicalIndicators Spec.

Lemma for_each_defined {A B} (body : A -> outcome B) (l : list A) :
  (forall a, a ∈ l -> exists b, body a = Return b) ->
  exists out,
    for_each body l = Return out /\ length out = length l /\
    forall i b, out !! i = Some b -> exists a, l !! i = Some a /\ body a = Return b.
Proof.
  induction l as [| a rest IH]; intros H.
  - exists []. repeat split. intros i b Hi. rewrite lookup_nil in Hi. discriminate.
  - destruct (H a ltac:(left)) as (b & Hb).
    destruct IH as (out & Hout & Hlen & Hnth); [intros x Hx; apply H; right; exact Hx |].
    exists (b :: out). cbn [for_each]. rewrite Hb. cbn [obind]. rewrite Hout. cbn [obind].
    split; [reflexivity |]. split; [cbn; lia |].
    intros [| i] y Hi; cbn in Hi.
    + inversion Hi; subst. exists a. split; [reflexivity | exact Hb].
    + apply Hnth. exact Hi.
Qed.

Lemma lookup_repeat_eq {A} (x y : A) (a i : nat) :
  repeat x a !! i = Some y -> y = x.
Proof.
  intros H. apply list_elem_of_lookup_2, list_elem_of_In in H.
  exact (repeat_spec _ _ _ H).
Qed.

(** A line made of [a] leading [None]s followed by values. *)
Lemma prefix_aligned (a : nat) (vs : list Q) (history : Z) :
  Z.of_nat a <= history - 1 ->
  (vs <> [] -> Z.of_nat a = history - 1) ->
  aligned (a + length vs) history (repeat None a ++ map Some vs).
Proof.
  intros Hle Heq. split.
  - rewrite length_app, repeat_length, length_map. reflexivity.
  - intros i x Hi.
    destruct (decide (i < a)%nat) as [Hlt | Hge].
    + rewrite lookup_app_l in Hi by (rewrite repeat_length; exact Hlt).
      apply lookup_repeat_eq in Hi as ->. split; [lia | reflexivity].
    + rewrite lookup_app_r in Hi by (rewrite repeat_length; lia).
      apply list_lookup_fmap_Some in Hi as (v & -> & Hv).
      assert (Hvs : vs <> []) by (intros ->; rewrite lookup_nil in Hv; discriminate).
      specialize (Heq Hvs). split; [discriminate | lia].
Qed.

(** Conversely, an aligned line is its leading [None]s followed by its
    values, which is what counting and filtering the [None]s recover. *)
Lemma aligned_prefix (out : list (option Q)) :
  forall (n : nat) (history : Z),
    aligned n history out ->
    let a := Nat.min n (Z.to_nat (history - 1)) in
    none_count out = Z.of_nat a /\
    length (not_none out) = (n - a)%nat.
Proof.
  induction out as [| x rest IH]; intros n history [Hlen Hnone] a.
  - cbn in Hlen. subst n. cbn. split; reflexivity.
  - cbn in Hlen. destruct n as [| n']; [discriminate |].
    assert (Hrest : aligned n' (history - 1) rest).
    { split; [lia |]. intros i y Hi. rewrite (Hnone (S i) y Hi). lia. }
    destruct (IH n' (history - 1) Hrest) as [Hcount Hvals].
    pose proof (Hnone 0%nat x eq_refl) as Hhead.
    unfold none_count, not_none, len in *. rewrite filter_cons.
    destruct x as [v |];
      [change (omap id (Some v :: rest)) with (v :: omap id rest)
      | change (omap id (None :: rest)) with (omap id rest : list Q)].
    + assert (history <= 1) by (destruct (Z_lt_le_dec 1 history) as [Hc | Hc];
                                 [apply Hhead in Hc; discriminate | lia]).
      rewrite decide_False by discriminate.
      subst a. replace (Z.to_nat (history - 1)) with 0%nat in * by lia.
      replace (Z.to_nat (history - 1 - 1)) with 0%nat in * by lia.
      rewrite Nat.min_0_r in *. cbn [length]. split; [lia | lia].
    + assert (1 < history) by (apply Hhead; reflexivity).
      rewrite decide_True by reflexivity. cbn [length].
      subst a. replace (Z.to_nat (history - 1)) with (S (Z.to_nat (history - 1 - 1))) by lia.
      cbn [Nat.min]. split; [lia | cbn; lia].
Qed.

(** Re-alignment: putting back the leading [None]s counted in a line in
    front of a line computed from its values. *)
Lemma aligned_realign (n : nat) (history extra : Z) (line tail : list (option Q)) :
  1 <= history -> 1 <= extra ->
  aligned n history line ->
  aligned (length (not_none line)) extra tail ->
  aligned n (history + extra - 1) (replicate_py (none_count line) None ++ tail).
Proof.
  intros Hh He Hline [Htl Htail].
  destruct (aligned_prefix line n history Hline) as [Hcount Hvals].
  set (a := Nat.min n (Z.to_nat (history - 1))) in *.
  unfold replicate_py. rewrite Hcount, Nat2Z.id.
  split.
  - rewrite length_app, repeat_length, Htl, Hvals. lia.
  - intros i x Hi.
    destruct (decide (i < a)%nat) as [Hlt | Hge].
    + rewrite lookup_app_l in Hi by (rewrite repeat_length; exact Hlt).
      apply lookup_repeat_eq in Hi as ->. split; [lia | reflexivity].
    + rewrite lookup_app_r in Hi by (rewrite repeat_length; lia).
      rewrite repeat_length in Hi.
      pose proof (lookup_lt_Some _ _ _ Hi) as Hb. rewrite Htl, Hvals in Hb.
      rewrite (Htail _ _ Hi). lia.
Qed.

End Alignment.

Section IndicatorLines.

Import TechnicalIndicators Spec.

Lemma sma_aligned (prices : list Q) (period : Z) :
  1 <= period ->
  exists out, sma prices period = Return out /\ aligned (length prices) period out.
Proof.
  intros Hp. unfold sma.
  destruct (Z.ltb_spec (len prices) period) as [Hshort | Hlong].
  - eexists. split; [reflexivity |].
    unfold replicate_py, len in *. rewrite Nat2Z.id.
    rewrite <- (app_nil_r (repeat None (length prices))).
    rewrite <- (Nat.add_0_r (length prices)) at 1.
    apply (prefix_aligned (length prices) []); [lia | congruence].
  - destruct (for_each_defined
                (fun i =>
                   if i <? period - 1 then Return None
                   else
                     let? v := div (sum (slice prices (i - period + 1) (i + 1)))
                                 (inject_Z period) in
                     Return (Some v))
                (range 0 (len prices))) as (out & Hout & Hlen & Hnth).
    { intros i _. destruct (i <? period - 1); [eauto |].
      rewrite div_by_int by lia. cbn [obind]. eauto. }
    exists out. split; [exact Hout |]. split.
    + rewrite Hlen, length_range. unfold len. lia.
    + intros i x Hi. destruct (Hnth _ _ Hi) as (j & Hj & Hbody).
      apply lookup_range in Hj as [-> _].
      destruct (Z.ltb_spec (0 + Z.of_nat i) (period - 1)).
      * inversion Hbody; subst. split; [lia | reflexivity].
      * rewrite div_by_int in Hbody by lia. inversion Hbody; subst.
        split; [discriminate | lia].
Qed.

Lemma ema_loop_defined (alpha : Q) (prices : list Q) (idxs : list Z) :
  (forall i, i ∈ idxs -> 0 <= i < len prices) ->
  forall last, exists vs,
    ema_loop alpha prices idxs last = Return (map Some vs) /\
    length vs = length idxs.
Proof.
  induction idxs as [| i rest IH]; intros Hidx last.
  - exists []. split; reflexivity.
  - destruct (index_in_range prices i (Hidx i ltac:(left))) as (p & Hp & _).
    cbn [ema_loop]. rewrite Hp. cbn [obind].
    destruct (IH ltac:(intros j Hj; apply Hidx; right; exact Hj)
                (alpha * p + (1 - alpha) * last)%Q) as (vs & Hvs & Hlen).
    rewrite Hvs. cbn [obind].
    exists ((alpha * p + (1 - alpha) * last)%Q :: vs). split; [reflexivity | cbn; lia].
Qed.

Lemma ema_aligned (prices : list Q) (period : Z) :
  1 <= period ->
  exists out, ema prices period = Return out /\ aligned (length prices) period out.
Proof.
  intros Hp. unfold ema.
  destruct (Z.ltb_spec (len prices) period) as [Hshort | Hlong].
  - eexists. split; [reflexivity |].
    unfold replicate_py, len in *. rewrite Nat2Z.id.
    rewrite <- (app_nil_r (repeat None (length prices))).
    rewrite <- (Nat.add_0_r (length prices)) at 1.
    apply (prefix_aligned (length prices) []); [lia | congruence].
  - rewrite !div_by_int by lia. cbn [obind].
    destruct (ema_loop_defined (2 / inject_Z (period + 1))%Q prices
                (range period (len prices))
                ltac:(intros i Hi; apply elem_of_range in Hi; lia)
                (sum (slice prices 0 period) / inject_Z period)%Q)
      as (vs & Hvs & Hlen).
    rewrite Hvs. cbn [obind]. eexists. split; [reflexivity |].
    unfold replicate_py.
    change (Some ?x :: map Some vs) with (map Some (x :: vs)).
    replace (length prices)
      with (Z.to_nat (period - 1)
            + length ((sum (slice prices 0 period) / inject_Z period)%Q :: vs))%nat.
    + apply prefix_aligned; lia.
    + cbn [length]. rewrite Hlen, length_range. unfold len in *. lia.
Qed.

Lemma rsi_loop_defined (period : Z) (gains losses : list Q) (idxs : list Z) :
  1 <= period ->
  Forall (fun x => (0 <= x)%Q) gains ->
  Forall (fun x => (0 <= x)%Q) losses ->
  (forall i, i ∈ idxs -> 0 <= i < len gains /\ 0 <= i < len losses) ->
  forall avg_gain avg_loss,
    (0 <= avg_gain)%Q -> (0 <= avg_loss)%Q ->
    exists vs,
      rsi_loop period gains losses idxs avg_gain avg_loss = Return (map Some vs) /\
      length vs = length idxs.
Proof.
  intros Hp Hgains Hlosses.
  induction idxs as [| i rest IH]; intros Hidx avg_gain avg_loss Hg Hl.
  - exists []. split; reflexivity.
  - destruct (Hidx i ltac:(left)) as [Hig Hil].
    destruct (index_in_range gains i Hig) as (g & Hgi & Hgl).
    destruct (index_in_range losses i Hil) as (l & Hli & Hll).
    pose proof (proj1 (Forall_lookup _ _) Hgains _ _ Hgl) as Hg0.
    pose proof (proj1 (Forall_lookup _ _) Hlosses _ _ Hll) as Hl0.
    cbn [rsi_loop]. rewrite Hgi. cbn [obind].
    rewrite div_by_int by lia. cbn [obind].
    rewrite Hli. cbn [obind]. rewrite div_by_int by lia. cbn [obind].
    assert (Hstep : forall avg x, (0 <= avg)%Q -> (0 <= x)%Q ->
              (0 <= (avg * inject_Z (period - 1) + x) / inject_Z period)%Q).
    { intros avg x Ha Hx. apply Qdiv_nonneg; [| apply inject_Z_pos; lia].
      replace 0%Q with (0 + 0)%Q by reflexivity.
      apply Qplus_le_compat; [| exact Hx].
      apply Qmult_le_0_compat; [exact Ha | apply inject_Z_nonneg; lia]. }
    pose proof (Hstep _ _ Hg Hg0) as Hg'.
    pose proof (Hstep _ _ Hl Hl0) as Hl'.
    destruct (rsi_value_defined _ _ Hg' Hl') as (v & Hv). rewrite Hv. cbn [obind].
    destruct (IH ltac:(intros j Hj; apply Hidx; right; exact Hj) _ _ Hg' Hl')
      as (vs & Hvs & Hlen).
    rewrite Hvs. cbn [obind]. exists (v :: vs). split; [reflexivity | cbn; lia].
Qed.

Lemma rsi_aligned (prices : list Q) (period : Z) :
  1 <= period ->
  exists out, rsi prices period = Return out /\ aligned (length prices) (period + 1) out.
Proof.
  intros Hp. unfold rsi.
  destruct (Z.ltb_spec (len prices) (period + 1)) as [Hshort | Hlong].
  - eexists. split; [reflexivity |].
    unfold replicate_py, len in *. rewrite Nat2Z.id.
    rewrite <- (app_nil_r (repeat None (length prices))).
    rewrite <- (Nat.add_0_r (length prices)) at 1.
    apply (prefix_aligned (length prices) []); [lia | congruence].
  - destruct (for_each_defined
                (fun i => let? a := index prices i in
                          let? b := index prices (i - 1) in
                          Return (a - b)%Q)
                (range 1 (len prices))) as (deltas & Hdeltas & Hdlen & _).
    { intros i Hi. apply elem_of_range in Hi.
      destruct (index_in_range prices i ltac:(lia)) as (a & -> & _).
      destruct (index_in_range prices (i - 1) ltac:(lia)) as (b & -> & _).
      cbn [obind]. eauto. }
    rewrite Hdeltas. cbn [obind].
    rewrite length_range in Hdlen.
    set (gains := map (fun delta => max2 delta 0) deltas).
    set (losses := map (fun delta => Qabs (min2 delta 0)) deltas).
    assert (Hgains : Forall (fun x => (0 <= x)%Q) gains).
    { apply Forall_forall. intros x Hx. apply list_elem_of_fmap in Hx as (d & -> & _).
      apply max2_zero_nonneg. }
    assert (Hlosses : Forall (fun x => (0 <= x)%Q) losses).
    { apply Forall_forall. intros x Hx. apply list_elem_of_fmap in Hx as (d & -> & _).
      apply Qabs_nonneg. }
    rewrite !div_by_int by lia. cbn [obind].
    assert (Hag : (0 <= sum (slice gains 0 period) / inject_Z period)%Q).
    { apply Qdiv_nonneg; [| apply inject_Z_pos; lia].
      apply sum_nonneg, slice_Forall, Hgains. }
    assert (Hal : (0 <= sum (slice losses 0 period) / inject_Z period)%Q).
    { apply Qdiv_nonneg; [| apply inject_Z_pos; lia].
      apply sum_nonneg, slice_Forall, Hlosses. }
    destruct (rsi_value_defined _ _ Hag Hal) as (first & Hfirst).
    rewrite Hfirst. cbn [obind].
    destruct (rsi_loop_defined period gains losses (range period (len deltas)) Hp
                Hgains Hlosses
                ltac:(intros i Hi; apply elem_of_range in Hi;
                      unfold gains, losses, len in *; rewrite !length_map; lia)
                _ _ Hag Hal) as (vs & Hvs & Hlen).
    rewrite Hvs. cbn [obind]. eexists. split; [reflexivity |].
    unfold replicate_py.
    change (Some first :: map Some vs) with (map Some (first :: vs)).
    replace (length prices) with (Z.to_nat period + length (first :: vs))%nat.
    + apply prefix_aligned; lia.
    + cbn [length]. rewrite Hlen, length_range. unfold len in *. lia.
Qed.

End IndicatorLines.

Section CombinedLines.

Import TechnicalIndicators Spec.

Lemma difference_line_aligned (n : nat) (h1 h2 : Z) (a b : list (option Q)) :
  aligned n h1 a -> aligned n h2 b ->
  exists out,
    difference_line (Z.of_nat n) a b = Return out /\ aligned n (Z.max h1 h2) out.
Proof.
  intros [Hla Ha] [Hlb Hb]. unfold difference_line.
  set (body := fun i : Z =>
         let? x := index a i in
         match x with
         | None => Return None
         | Some x =>
             let? y := index b i in
             match y with
             | None => Return None
             | Some y => Return (Some (x - y)%Q)
             end
         end).
  assert (Hbody : forall i : nat, (i < n)%nat ->
            exists x y, a !! i = Some x /\ b !! i = Some y /\
              body (Z.of_nat i) =
                Return (match x, y with
                        | Some x, Some y => Some (x - y)%Q
                        | _, _ => None
                        end)).
  { intros i Hi. unfold body.
    destruct (index_in_range a (Z.of_nat i) ltac:(unfold len; lia)) as (x & -> & Hx).
    destruct (index_in_range b (Z.of_nat i) ltac:(unfold len; lia)) as (y & Hyi & Hy).
    rewrite Nat2Z.id in Hx, Hy. exists x, y. split; [exact Hx |]. split; [exact Hy |].
    cbn [obind]. destruct x as [x |]; [| reflexivity].
    rewrite Hyi. cbn [obind]. destruct y; reflexivity. }
  destruct (for_each_defined body (range 0 (Z.of_nat n))) as (out & Hout & Hlen & Hnth).
  { intros i Hi. apply elem_of_range in Hi.
    destruct (Hbody (Z.to_nat i) ltac:(lia)) as (x & y & _ & _ & Hb').
    rewrite Z2Nat.id in Hb' by lia. eauto. }
  exists out. split; [exact Hout |]. split.
  - rewrite Hlen, length_range. lia.
  - intros i z Hi. destruct (Hnth _ _ Hi) as (j & Hj & Hz).
    apply lookup_range in Hj as [-> Hlt]. rewrite Z.add_0_l in *.
    destruct (Hbody i ltac:(lia)) as (x & y & Hxl & Hyl & Hb').
    rewrite Hb' in Hz. inversion Hz; subst z.
    pose proof (Ha _ _ Hxl) as Hax. pose proof (Hb _ _ Hyl) as Hby.
    destruct x as [x |], y as [y |].
    + split; [discriminate |]. intros Hm.
      assert (Z.of_nat i + 1 < h1 \/ Z.of_nat i + 1 < h2) as [H | H] by lia;
        [apply Hax in H | apply Hby in H]; discriminate.
    + split; [intros _ | reflexivity].
      assert (Z.of_nat i + 1 < h2) by (apply Hby; reflexivity). lia.
    + split; [intros _ | reflexivity].
      assert (Z.of_nat i + 1 < h1) by (apply Hax; reflexivity). lia.
    + split; [intros _ | reflexivity].
      assert (Z.of_nat i + 1 < h1) by (apply Hax; reflexivity). lia.
Qed.

Lemma macd_aligned (prices : list Q) (fast slow signal : Z) :
  1 <= fast -> 1 <= slow -> 1 <= signal ->
  exists macd_line signal_line histogram,
    macd prices fast slow signal = Return (macd_line, signal_line, histogram) /\
    aligned (length prices) (Z.max fast slow) macd_line /\
    aligned (length prices) (Z.max fast slow + signal - 1) signal_line /\
    aligned (length prices) (Z.max fast slow + signal - 1) histogram.
Proof.
  intros Hf Hs Hsig. unfold macd.
  destruct (ema_aligned prices fast Hf) as (ema_fast & -> & Hfast).
  destruct (ema_aligned prices slow Hs) as (ema_slow & -> & Hslow).
  cbn [obind].
  destruct (difference_line_aligned _ _ _ _ _ Hfast Hslow) as (macd_line & Hm & Hmacd).
  fold (len prices) in Hm. rewrite Hm. cbn [obind].
  destruct (ema_aligned (not_none macd_line) signal Hsig) as (tail & -> & Htail).
  cbn [obind].
  pose proof (aligned_realign (length prices) (Z.max fast slow) signal macd_line tail
                ltac:(lia) Hsig Hmacd Htail) as Hsignal.
  destruct (difference_line_aligned _ _ _ _ _ Hmacd Hsignal) as (histogram & Hh & Hhist).
  replace (len macd_line) with (Z.of_nat (length prices))
    by (unfold len; rewrite (proj1 Hmacd); reflexivity).
  rewrite Hh. cbn [obind].
  rewrite Z.max_r in Hhist by lia.
  eauto 10.
Qed.

Lemma max_seq_defined (xs : list Q) : xs <> [] -> exists m, max_seq xs = Return m.
Proof. destruct xs; [congruence | cbn; eauto]. Qed.

Lemma min_seq_defined (xs : list Q) : xs <> [] -> exists m, min_seq xs = Return m.
Proof. destruct xs; [congruence | cbn; eauto]. Qed.

Lemma slice_nonempty {A} (l : list A) (lo hi : Z) :
  0 <= lo -> lo < hi -> hi <= len l -> slice l lo hi <> [].
Proof.
  intros H1 H2 H3 Hnil.
  pose proof (proj2 (slice_inside l lo hi H1 H2 H3)) as Hlen.
  rewrite Hnil in Hlen. cbn in Hlen. lia.
Qed.

Lemma stochastic_aligned (highs lows closes : list Q) (k_period d_period : Z) :
  length highs = length lows -> length lows = length closes ->
  1 <= k_period -> 1 <= d_period ->
  exists k_values d_values,
    stochastic highs lows closes k_period d_period = Return (k_values, d_values) /\
    aligned (length closes) k_period k_values /\
    aligned (length closes) (k_period + d_period - 1) d_values.
Proof.
  intros Hhl Hlc Hk Hd. unfold stochastic.
  replace (len highs =? len lows) with true
    by (symmetry; apply Z.eqb_eq; unfold len; lia).
  replace (len lows =? len closes) with true
    by (symmetry; apply Z.eqb_eq; unfold len; lia).
  cbn [negb orb].
  set (body := fun i : Z =>
         if i <? k_period - 1 then Return None
         else
           let? highest_high := max_seq (slice highs (i - k_period + 1) (i + 1)) in
           let? lowest_low := min_seq (slice lows (i - k_period + 1) (i + 1)) in
           if Qeq_bool highest_high lowest_low then Return (Some 50%Q)
           else
             let? c := index closes i in
             let? r := div (c - lowest_low) (highest_high - lowest_low) in
             Return (Some (r * 100)%Q)).
  assert (Hbody : forall i, 0 <= i < len closes ->
            (i < k_period - 1 -> body i = Return None) /\
            (k_period - 1 <= i -> exists v, body i = Return (Some v))).
  { intros i Hi. unfold body. split.
    - intros Hlt. replace (i <? k_period - 1) with true by (symmetry; apply Z.ltb_lt; lia).
      reflexivity.
    - intros Hge. replace (i <? k_period - 1) with false by (symmetry; apply Z.ltb_ge; lia).
      destruct (max_seq_defined (slice highs (i - k_period + 1) (i + 1)))
        as (hi & ->); [apply slice_nonempty; unfold len in *; lia |].
      destruct (min_seq_defined (slice lows (i - k_period + 1) (i + 1)))
        as (lo & ->); [apply slice_nonempty; unfold len in *; lia |].
      cbn [obind]. destruct (Qeq_bool hi lo) eqn:Heq; [eauto |].
      destruct (index_in_range closes i Hi) as (c & -> & _). cbn [obind].
      apply Qeq_bool_neq in Heq.
      unfold div. rewrite Qeq_bool_false by (intros H0; apply Heq; lra).
      cbn [obind]. eauto. }
  destruct (for_each_defined body (range 0 (len closes))) as (k_values & Hkv & Hlen & Hnth).
  { intros i Hi. apply elem_of_range in Hi.
    destruct (Hbody i Hi) as [Hlo Hhi].
    destruct (Z_lt_le_dec i (k_period - 1)) as [Hc | Hc]; [eauto | ].
    destruct (Hhi Hc) as (v & Hv). eauto. }
  rewrite Hkv. cbn [obind].
  assert (Hk_aligned : aligned (length closes) k_period k_values).
  { split; [rewrite Hlen, length_range; unfold len; lia |].
    intros i x Hi. destruct (Hnth _ _ Hi) as (j & Hj & Hx).
    apply lookup_range in Hj as [-> Hlt]. rewrite Z.add_0_l in *.
    destruct (Hbody (Z.of_nat i) ltac:(lia)) as [Hlo Hhi].
    destruct (Z_lt_le_dec (Z.of_nat i) (k_period - 1)) as [Hc | Hc].
    - rewrite (Hlo Hc) in Hx. inversion Hx; subst. split; [lia | reflexivity].
    - destruct (Hhi Hc) as (v & Hv). rewrite Hv in Hx. inversion Hx; subst.
      split; [discriminate | lia]. }
  destruct (sma_aligned (not_none k_values) d_period Hd) as (tail & -> & Htail).
  cbn [obind].
  pose proof (aligned_realign _ _ _ _ _ Hk Hd Hk_aligned Htail) as Hd_aligned.
  eauto.
Qed.

(** C10 (amended): for every input and all periods that are at least 1
    (and, for [stochastic], three inputs of one length), [sma], [rsi],
    [macd] and [stochastic] return without raising, each line they
    return has exactly the length of the input, and [None] occupies
    exactly the positions without enough history: fewer than [period]
    values for [sma], than [period + 1] for [rsi], than [max fast slow]
    for the MACD line, than [max fast slow + signal - 1] for the
    re-aligned signal line and the histogram, than [k_period] for %K and
    than [k_period + d_period - 1] for the re-aligned %D. *)
Theorem indicator_lines_aligned :
  (forall prices period,
     1 <= period ->
     exists out, sma prices period = Return out /\
                 aligned (length prices) period out) /\
  (forall prices period,
     1 <= period ->
     exists out, rsi prices period = Return out /\
                 aligned (length prices) (period + 1) out) /\
  (forall prices fast slow signal,
     1 <= fast -> 1 <= slow -> 1 <= signal ->
     exists macd_line signal_line histogram,
       macd prices fast slow signal = Return (macd_line, signal_line, histogram) /\
       aligned (length prices) (Z.max fast slow) macd_line /\
       aligned (length prices) (Z.max fast slow + signal - 1) signal_line /\
       aligned (length prices) (Z.max fast slow + signal - 1) histogram) /\
  (forall highs lows closes k_period d_period,
     length highs = length lows -> length lows = length closes ->
     1 <= k_period -> 1 <= d_period ->
     exists k_values d_values,
       stochastic highs lows closes k_period d_period = Return (k_values, d_values) /\
       aligned (length closes) k_period k_values /\
       aligned (length closes) (k_period + d_period - 1) d_values).
Proof.
  split; [exact sma_aligned |].
  split; [exact rsi_aligned |].
  split; [exact macd_aligned | exact stochastic_aligned].
Qed.

End CombinedLines.

(** ** Worked examples *)

Section Examples.

Import BinanceAPI CandleCollector Continuous TechnicalIndicators Spec Fixtures.

(** C1, as stated, fails: at [now = 7199999] the fetched candle whose
    close time is 7199999, equal to [now], is in the batch handed to
    [insert_candles] and is stored. *)
Lemma candle_closing_now_is_persisted :
  let w' := (collect_single_symbol E_boundary "BTCUSDT" "1h" (Some 1) None 1000
               empty_world).2 in
  let c := parse_kline_data (hourly 1) "BTCUSDT" "1h" in
  now E_boundary <= close_time c /\
  insert_log w' = [[parse_kline_data (hourly 0) "BTCUSDT" "1h"; c]] /\
  candles w' !! candle_key c = Some c.
Proof. repeat split; vm_compute; congruence. Qed.

(** Witness for C1: of three fetched candles, the one closing after
    [now] is left out of the batch. *)
Lemma open_candles_witness :
  insert_log
    (collect_single_symbol E_boundary "BTCUSDT" "1h" (Some 1) None 1000 empty_world).2 =
  [[parse_kline_data (hourly 0) "BTCUSDT" "1h";
    parse_kline_data (hourly 1) "BTCUSDT" "1h"]].
Proof.
  destruct (open_candles_never_persisted E_boundary "BTCUSDT" "1h" (Some 1) None 1000
              empty_world) as (new & Hlog & _ & Hnew).
  rewrite Hlog.
  rewrite (Hnew 1 [hourly 0; hourly 1; hourly 2]
             (get_klines E_boundary "BTCUSDT" "1h" (Some 1) None 1000 empty_world).2
             eq_refl eq_refl ltac:(discriminate)).
  reflexivity.
Defined.

(** A refused bulk insert: nothing is stored, the cursor row records the
    error. *)
Example refused_insert_is_recorded :
  let r := collect_single_symbol E_insert_refused "BTCUSDT" "1h" (Some hour) None 1000
             empty_world in
  r.1 = Return (0, "2013: Lost connection to MySQL server during query") /\
  candles r.2 = ∅ /\
  collection_control r.2 !! BTC_1h =
    Some {| last_collected_time := Some 0; status := "error"; error_count := 1;
            last_error := Some "2013: Lost connection to MySQL server during query" |}.
Proof. repeat split; vm_compute; reflexivity. Qed.





(** Witness for C4: two closed candles are stored, the cursor is at the
    later one. *)
Lemma cursor_after_successful_run_witness :
  collection_control
    (collect_single_symbol E_boundary "BTCUSDT" "1h" None None 1000 empty_world).2
    !! BTC_1h = Some (active_cursor hour).
Proof.
  destruct (cursor_after_successful_run E_boundary "BTCUSDT" "1h" None None 1000
              empty_world (now E_boundary - days_ms 30)
              (Some [hourly 0; hourly 1; hourly 2])
              (get_klines E_boundary "BTCUSDT" "1h"
                 (Some (now E_boundary - days_ms 30)) None 1000 empty_world).2)
    as [Hstored _].
  - reflexivity.
  - vm_compute. reflexivity.
  - destruct (Hstored [hourly 0; hourly 1; hourly 2]
                (parse_kline_data (hourly 0) "BTCUSDT" "1h")
                [parse_kline_data (hourly 1) "BTCUSDT" "1h"]
                eq_refl eq_refl eq_refl) as (_ & Hcursor & _).
    exact Hcursor.
Defined.


(** C7, as stated, fails: two ticks of the 1h timer with no worker step
    between them leave two pending jobs for the same pair. *)
Lemma two_ticks_two_pending_jobs :
  exists s,
    reachable 5 empty_world s /\
    pending BTC_1h s = 2%nat /\ in_flight BTC_1h s = 0%nat.
Proof.
  eexists. split.
  - eapply reachable_step;
      [eapply reachable_step;
         [apply reachable_start | apply (step_tick E_quiet "1h" ["BTCUSDT"])]
      | apply (step_tick E_quiet "1h" ["BTCUSDT"])].
  - split; vm_compute; reflexivity.
Qed.

(** Witness for C7: a tick on the initial state. *)
Lemma tick_enqueues_witness :
  _schedule_collection E_quiet "1h" ["BTCUSDT"; "ETHUSDT"] 0 [] =
    [Some ("BTCUSDT", "1h"); Some ("ETHUSDT", "1h")].
Proof.
  exact (proj1 (proj2
    (tick_enqueues_unconditionally 5 empty_world (start 5 empty_world)
       E_quiet "1h" ["BTCUSDT"; "ETHUSDT"]
       (reachable_start 5 empty_world) (fun _ => eq_refl)))).
Defined.

(** Witness for C9: the same rows are fetched a second time. *)
Lemma cursor_advances_on_duplicates_witness :
  (collect_single_symbol E_boundary "BTCUSDT" "1h" (Some 1) None 1000
     world_after_first_run).1 = Return (0, "success") /\
  collection_control
    (collect_single_symbol E_boundary "BTCUSDT" "1h" (Some 1) None 1000
       world_after_first_run).2 !! BTC_1h = Some (active_cursor hour).
Proof.
  destruct (cursor_advances_on_duplicates E_boundary "BTCUSDT" "1h" (Some 1) None 1000
              world_after_first_run 1 [hourly 0; hourly 1; hourly 2]
              (get_klines E_boundary "BTCUSDT" "1h" (Some 1) None 1000
                 world_after_first_run).2
              (parse_kline_data (hourly 0) "BTCUSDT" "1h")
              [parse_kline_data (hourly 1) "BTCUSDT" "1h"])
    as (Hret & Hcursor & _).
  - reflexivity.
  - vm_compute. reflexivity.
  - reflexivity.
  - reflexivity.
  - split; [| exact Hcursor]. rewrite Hret. vm_compute. reflexivity.
Defined.

(** Witness for C10: [sma] over three prices with period 2. *)
Lemma indicator_lines_witness :
  exists out, sma [1; 2; 3]%Q 2 = Return out /\ aligned 3 2 out.
Proof. exact (proj1 indicator_lines_aligned [1; 2; 3]%Q 2 ltac:(lia)). Defined.

(** C10, as stated, fails for periods below 1: [rsi] with period -1
    returns four entries for three prices, and [sma] with period 0
    raises. *)
Lemma nonpositive_period_breaks_alignment :
  rsi [1; 2; 3]%Q (-1) = Return [Some 100%Q; Some 100%Q; Some 100%Q; Some 100%Q] /\
  length [Some 100%Q; Some 100%Q; Some 100%Q; Some 100%Q] <> length [1; 2; 3]%Q /\
  sma [1]%Q 0 = Raise (Exn ZeroDivisionError "division by zero").
Proof. repeat split; vm_compute; congruence. Qed.

End Examples.

(** * Further properties *)

(** ** The candle store *)

Section StoreMore.

Import CandleCollector Spec.

Lemma insert_ignore_origin (rows : list candle_row) :
  forall tbl key row,
    (insert_ignore tbl rows).1 !! key = Some row ->
    tbl !! key = Some row \/ (row ∈ rows /\ candle_key row = key).
Proof.
  induction rows as [| c rest IH]; intros tbl key row H; [left; exact H |].
  cbn [insert_ignore] in H.
  destruct (tbl !! candle_key c) eqn:Hc.
  - destruct (IH _ _ _ H) as [Hold | [Hin Hk]]; [left; exact Hold |].
    right. split; [right; exact Hin | exact Hk].
  - specialize (IH (<[candle_key c := c]> tbl) key row).
    destruct (insert_ignore (<[candle_key c := c]> tbl) rest) as [tbl' n].
    destruct (IH H) as [Hold | [Hin Hk]].
    + destruct (decide (candle_key c = key)) as [<- | Hne].
      * rewrite lookup_insert_eq in Hold. inversion Hold; subst.
        right. split; [left | reflexivity].
      * rewrite lookup_insert_ne in Hold by exact Hne. left. exact Hold.
    + right. split; [right; exact Hin | exact Hk].
Qed.

Lemma insert_ignore_count_bounds (rows : list candle_row) :
  forall tbl, 0 <= (insert_ignore tbl rows).2 <= len rows.
Proof.
  unfold len. induction rows as [| c rest IH]; intros tbl; cbn [insert_ignore].
  - cbn. lia.
  - destruct (tbl !! candle_key c).
    + specialize (IH tbl). cbn [length]. lia.
    + specialize (IH (<[candle_key c := c]> tbl)).
      destruct (insert_ignore (<[candle_key c := c]> tbl) rest). cbn in *. lia.
Qed.

(** X1: the bulk insert never modifies or removes a stored candle, adds
    only rows of the batch under their own key, and reports a count
    between zero and the size of the batch. *)
Theorem insert_ignore_only_adds (tbl : gmap (string * string * Z) candle_row)
    (rows : list candle_row) :
  (forall key row,
     tbl !! key = Some row -> (insert_ignore tbl rows).1 !! key = Some row) /\
  (forall key row,
     (insert_ignore tbl rows).1 !! key = Some row ->
     tbl !! key = Some row \/ (row ∈ rows /\ candle_key row = key)) /\
  0 <= (insert_ignore tbl rows).2 <= len rows.
Proof.
  split; [intros key row; apply insert_ignore_keeps |].
  split; [intros key row; apply insert_ignore_origin | apply insert_ignore_count_bounds].
Qed.

(** X2: inserting a batch a second time stores nothing and reports
    zero: [insert_candles] is idempotent. *)
Theorem insert_candles_idempotent (E : Env) (rows : list candle_row)
    (w w1 : World) (n : Z) :
  insert_candles E rows w = (Return n, w1) ->
  execute_many_fault E (length (insert_log w1)) rows = None ->
  (insert_candles E rows w1).1 = Return 0 /\
  candles (insert_candles E rows w1).2 = candles w1 /\
  (forall c, c ∈ rows -> is_Some (candles w1 !! candle_key c)).
Proof.
  intros Hfirst Hfault. unfold insert_candles in *.
  destruct rows as [| c cs].
  - inversion Hfirst; subst. cbn. repeat split. intros c Hc. inversion Hc.
  - destruct (execute_many_fault E (length (insert_log w)) (c :: cs)); [discriminate |].
    pose proof (insert_ignore_stored (c :: cs)
                  (candles (set_insert_log (insert_log w ++ [c :: cs]) w))) as Hstored.
    destruct (insert_ignore (candles (set_insert_log (insert_log w ++ [c :: cs]) w))
                (c :: cs)) as [tbl m] eqn:Hins.
    inversion Hfirst; subst. cbn [fst] in Hstored.
    rewrite Hfault.
    change (candles (set_insert_log _ (set_candles tbl _))) with tbl.
    rewrite (insert_ignore_duplicates (c :: cs) tbl Hstored).
    repeat split. exact Hstored.
Qed.

End StoreMore.

(** ** The collection job, all paths *)

Section RunCases.

Import BinanceAPI CandleCollector Spec RunPaths.

Variable E : Env.
Variables symbol interval : string.
Variables start_time end_time : option Z.
Variable limit : Z.

Local Abbreviation run := (collect_single_symbol E symbol interval start_time end_time limit).

Lemma same_db_refl (w : World) : same_db w w.
Proof. repeat split. Qed.

Lemma run_has_path (w : World) : run_path E symbol interval end_time w (run w).
Proof.
  destruct (resolve_start_time E symbol interval start_time w) as [[start | e] w0] eqn:Hres;
    pose proof (resolve_start_time_reads _ _ _ _ _ _ _ Hres) as ->.
  2:{ rewrite (run_resolve_raises _ _ _ _ _ _ _ _ Hres).
      apply path_error; [apply same_db_refl | left; reflexivity]. }
  destruct (get_klines E symbol interval (Some start) end_time limit w)
    as [[klines | e] w1] eqn:Hget;
    destruct (get_klines_frame _ _ _ _ _ _ _ _ _ Hget) as [Hdb Hins].
  2:{ rewrite (run_fetch_raises _ _ _ _ _ _ _ _ _ _ Hres Hget).
      apply path_error; [exact Hdb | left; exact Hins]. }
  destruct klines as [[| k ks] |].
  - rewrite (run_empty_fetch _ _ _ _ _ _ _ _ _ _ Hres Hget) by auto.
    apply path_empty; assumption.
  - destruct (convert_klines E symbol interval (k :: ks)) as [| c cs] eqn:Hconv.
    + rewrite (run_nothing_closed _ _ _ _ _ _ _ _ _ _ _ Hres Hget Hconv).
      apply path_nothing_closed; assumption.
    + destruct (execute_many_fault E (length (insert_log w1)) (c :: cs)) as [e |] eqn:Hf.
      * rewrite (run_insert_raises _ _ _ _ _ _ _ _ _ _ _ _ _ Hres Hget Hconv Hf).
        apply path_error; [exact Hdb | right; exists (c :: cs); cbn; rewrite Hins; reflexivity].
      * rewrite (run_stored _ _ _ _ _ _ _ _ _ _ _ _ Hres Hget Hconv Hf).
        eapply path_stored; eassumption.
  - rewrite (run_empty_fetch _ _ _ _ _ _ _ _ _ _ Hres Hget) by auto.
    apply path_empty; assumption.
Qed.

End RunCases.

Section RunProperties.

Import BinanceAPI CandleCollector Spec RunPaths.

Variable E : Env.
Variables symbol interval : string.
Variables start_time end_time : option Z.
Variable limit : Z.

Local Abbreviation run := (collect_single_symbol E symbol interval start_time end_time limit).

Local Ltac world_simpl :=
  cbn [fst snd candles collection_control collection_logs http_log sleep_log
       insert_log set_candles set_collection_control set_collection_logs
       set_http_log set_sleep_log set_insert_log].



(** X4: a run touches only its own pair: the cursor rows of the other
    pairs are unchanged, every stored candle is kept as it was, and
    every candle that was not there before belongs to the pair of the
    run. *)
Theorem run_touches_only_its_pair (w : World) :
  (forall pair, pair <> (symbol, interval) ->
     collection_control (run w).2 !! pair = collection_control w !! pair) /\
  (forall key row, candles w !! key = Some row ->
     candles (run w).2 !! key = Some row) /\
  (forall key row, candles (run w).2 !! key = Some row ->
     candles w !! key = Some row \/ key.1 = (symbol, interval)).
Proof.
  destruct (run_has_path E symbol interval start_time end_time limit w)
    as [start e w1 (Hc & Hctl & _) _ | w1 (Hc & Hctl & _) _ | start w1 (Hc & Hctl & _) _
        | start w1 klines c cs (Hc & Hctl & _) _ Hconv];
    rewrite ?on_exception_spec; world_simpl; rewrite <- ?Hc, <- ?Hctl.
  - split; [intros pair Hne; apply lookup_insert_ne; congruence | auto].
  - auto.
  - auto.
  - split; [intros pair Hne; apply lookup_insert_ne; congruence |].
    split; [intros key row; apply insert_ignore_keeps |].
    intros key row Hrow.
    destruct (insert_ignore_origin _ _ _ _ Hrow) as [Hold | [Hin <-]]; [left; exact Hold |].
    right. rewrite <- Hconv, convert_klines_filter in Hin.
    apply list_elem_of_fmap in Hin as (k & -> & _). reflexivity.
Qed.

(** X5: a run appends at most one row to [collection_logs]; the row
    carries the pair of the run and the count returned, and its status
    is [success], or [error] with the message the run returned. *)
Theorem run_logs_at_most_one_event (w : World) :
  exists new,
    collection_logs (run w).2 = collection_logs w ++ new /\
    (length new <= 1)%nat /\
    forall row, row ∈ new ->
      lg_symbol row = symbol /\ lg_interval row = interval /\
      lg_collection_type row = "single" /\
      (exists status, (run w).1 = Return (lg_records_collected row, status)) /\
      (lg_status row = "success" /\ lg_error_message row = None \/
       lg_status row = "error" /\
       (run w).1 = Return (0, default "" (lg_error_message row))).
Proof.
  destruct (run_has_path E symbol interval start_time end_time limit w)
    as [start e w1 (_ & _ & Hlog) _ | w1 (_ & _ & Hlog) _ | start w1 (_ & _ & Hlog) _
        | start w1 klines c cs (_ & _ & Hlog) _ _];
    rewrite ?on_exception_spec; world_simpl; rewrite <- Hlog.
  - eexists [_]. split; [reflexivity |]. split; [cbn; lia |].
    intros row Hrow%list_elem_of_singleton. subst row. cbn.
    repeat split; eauto.
  - exists []. rewrite app_nil_r. split; [reflexivity |]. split; [cbn; lia |].
    intros row Hrow. inversion Hrow.
  - eexists [_]. split; [reflexivity |]. split; [cbn; lia |].
    intros row Hrow%list_elem_of_singleton. subst row. cbn.
    repeat split; eauto.
  - eexists [_]. split; [reflexivity |]. split; [cbn; lia |].
    intros row Hrow%list_elem_of_singleton. subst row. cbn.
    repeat split; eauto.
Qed.

End RunProperties.

(** ** Requests sent by the client *)

Section Requests.

Import BinanceAPI CandleCollector Spec.

Variable E : Env.

Lemma request_loop_trace (req : http_request) (remaining : nat) :
  forall (attempt : Z) (w : World),
    attempt + Z.of_nat remaining = max_retries (config E) ->
    exists k,
      (k <= remaining)%nat /\
      (request_loop E req remaining attempt w).2 =
        after_attempts req k (backoff E attempt (k - 1)) w /\
      (k = 0%nat <-> remaining = 0%nat).
Proof.
  induction remaining as [| r IH]; intros attempt w Hsum.
  - exists 0%nat. split; [lia |]. split; [| tauto].
    cbn. unfold after_attempts, backoff. cbn. rewrite !app_nil_r. destruct w; reflexivity.
  - cbn [request_loop]. unfold attempt_once.
    assert (Hone : set_http_log (http_log w ++ [req]) w =
                   after_attempts req 1 (backoff E attempt 0) w).
    { unfold after_attempts, backoff. cbn. rewrite app_nil_r. reflexivity. }
    destruct (attempt_result E (length (http_log w)) req) as [body | e].
    + exists 1%nat. split; [lia |]. split; [exact Hone | lia].
    + destruct (is_RequestException e);
        [| exists 1%nat; split; [lia |]; split; [exact Hone | lia]].
      destruct (Z.ltb_spec attempt (max_retries (config E) - 1)) as [Hlt | Hge];
        [| exists 1%nat; split; [lia |]; split; [exact Hone | lia]].
      unfold bind, sleep. cbn beta iota.
      destruct (IH (attempt + 1)
                  (set_sleep_log
                     (sleep_log (set_http_log (http_log w ++ [req]) w) ++
                      [retry_delay (config E) * (attempt + 1)])
                     (set_http_log (http_log w ++ [req]) w)) ltac:(lia))
        as (k & Hk & Hw & Hz).
      destruct k as [| k]; [lia |].
      exists (S (S k)). split; [lia |]. split; [| lia].
      rewrite Hw. replace (S k - 1)%nat with k by lia.
      replace (S (S k) - 1)%nat with (S k) by lia.
      rewrite after_attempts_step, <- backoff_S. reflexivity.
Qed.

Lemma make_request_trace (endpoint : string)
    (params : list (string * pyval)) (w : World) :
  exists k,
    Z.of_nat k <= Z.max 0 (max_retries (config E)) /\
    (_make_request E endpoint params w).2 =
      after_attempts {| endpoint := endpoint; params := params |} k
        (backoff E 0 (k - 1)) w /\
    (k = 0%nat <-> max_retries (config E) <= 0) /\
    (max_retries (config E) <= 0 ->
     _make_request E endpoint params w = (Return None, w)).
Proof.
  unfold _make_request.
  destruct (Z_le_gt_dec (max_retries (config E)) 0) as [Hle | Hgt].
  - replace (Z.to_nat (max_retries (config E))) with 0%nat by lia.
    exists 0%nat. cbn. split; [lia |].
    split; [unfold after_attempts, backoff; cbn; rewrite !app_nil_r; destruct w; reflexivity |].
    split; [tauto | reflexivity].
  - destruct (request_loop_trace {| endpoint := endpoint; params := params |}
                (Z.to_nat (max_retries (config E))) 0 w ltac:(lia)) as (k & Hk & Hw & Hz).
    exists k. split; [lia |]. split; [exact Hw |]. split; [lia | lia].
Qed.

(** X6: whatever the transport does, one call of [_make_request] sends
    the same request at most [max_retries] times, sleeps
    [retry_delay * 1, ..., retry_delay * (k - 1)] between its [k]
    sendings and changes nothing else; it sends nothing exactly when
    [max_retries] is not positive, and then returns [None]. *)
Theorem make_request_sends_at_most_max_retries (endpoint : string)
    (params : list (string * pyval)) (w : World) :
  exists k,
    Z.of_nat k <= Z.max 0 (max_retries (config E)) /\
    (_make_request E endpoint params w).2 =
      after_attempts {| endpoint := endpoint; params := params |} k
        (backoff E 0 (k - 1)) w /\
    (k = 0%nat <-> max_retries (config E) <= 0) /\
    (max_retries (config E) <= 0 ->
     _make_request E endpoint params w = (Return None, w)).
Proof. apply make_request_trace. Qed.

End Requests.

Section RunRequests.

Import BinanceAPI CandleCollector Spec RunPaths.

Variable E : Env.
Variables symbol interval : string.
Variables start_time end_time : option Z.
Variable limit : Z.

Local Abbreviation run := (collect_single_symbol E symbol interval start_time end_time limit).

Lemma run_http_log (w : World) :
  http_log (run w).2 = http_log w \/
  exists start,
    http_log (run w).2 =
    http_log (get_klines E symbol interval (Some start) end_time limit w).2.
Proof.
  destruct (resolve_start_time E symbol interval start_time w) as [[start | e] w0] eqn:Hres;
    pose proof (resolve_start_time_reads _ _ _ _ _ _ _ Hres) as ->.
  2:{ left. rewrite (run_resolve_raises _ _ _ _ _ _ _ _ Hres), on_exception_spec.
      reflexivity. }
  right. exists start.
  destruct (get_klines E symbol interval (Some start) end_time limit w)
    as [[klines | e] w1] eqn:Hget.
  2:{ rewrite (run_fetch_raises _ _ _ _ _ _ _ _ _ _ Hres Hget), on_exception_spec.
      reflexivity. }
  destruct klines as [[| k ks] |].
  - rewrite (run_empty_fetch _ _ _ _ _ _ _ _ _ _ Hres Hget) by auto. reflexivity.
  - destruct (convert_klines E symbol interval (k :: ks)) as [| c cs] eqn:Hconv.
    + rewrite (run_nothing_closed _ _ _ _ _ _ _ _ _ _ _ Hres Hget Hconv). reflexivity.
    + destruct (execute_many_fault E (length (insert_log w1)) (c :: cs)) as [e |] eqn:Hf.
      * rewrite (run_insert_raises _ _ _ _ _ _ _ _ _ _ _ _ _ Hres Hget Hconv Hf),
          on_exception_spec. reflexivity.
      * rewrite (run_stored _ _ _ _ _ _ _ _ _ _ _ _ Hres Hget Hconv Hf). reflexivity.
  - rewrite (run_empty_fetch _ _ _ _ _ _ _ _ _ _ Hres Hget) by auto. reflexivity.
Qed.

(** X7: the requests of one run are at most [max_retries] copies of one
    request to [/api/v3/klines] whose first parameters are the symbol,
    the interval and a limit that never exceeds 1000, whatever limit the
    caller passed. *)
Theorem run_requests_are_capped (w : World) :
  exists k req rest cap,
    Z.of_nat k <= Z.max 0 (max_retries (config E)) /\
    http_log (run w).2 = http_log w ++ repeat req k /\
    endpoint req = "/api/v3/klines" /\
    params req =
      [("symbol", PStr symbol); ("interval", PStr interval); ("limit", PInt cap)]
      ++ rest /\
    cap = Z.min limit 1000 /\ cap <= 1000.
Proof.
  destruct (run_http_log w) as [Hsame | (start & Hlog)].
  - exists 0%nat,
      {| endpoint := "/api/v3/klines";
         params := [("symbol", PStr symbol); ("interval", PStr interval);
                    ("limit", PInt (Z.min limit 1000))] |}, [], (Z.min limit 1000).
    split; [lia |]. split; [rewrite Hsame; cbn; rewrite app_nil_r; reflexivity |].
    repeat split. lia.
  - rewrite Hlog. unfold get_klines.
    set (base := [("symbol", PStr symbol); ("interval", PStr interval);
                  ("limit", PInt (Z.min limit 1000))]).
    set (p1 := if truthy_opt (Some start)
               then base ++ [("startTime", PInt (or_else (Some start) 0))] else base).
    set (p2 := if truthy_opt end_time
               then p1 ++ [("endTime", PInt (or_else end_time 0))] else p1).
    destruct (make_request_trace E "/api/v3/klines" p2 w)
      as (k & Hk & Hw & _).
    assert (Hp2 : exists rest, p2 = base ++ rest).
    { unfold p2, p1. destruct (truthy_opt (Some start)), (truthy_opt end_time);
        rewrite <- ?app_assoc; eauto. }
    destruct Hp2 as (rest & Hp2).
    exists k, {| endpoint := "/api/v3/klines"; params := p2 |}, rest, (Z.min limit 1000).
    split; [exact Hk |]. split; [rewrite Hw; reflexivity |].
    split; [reflexivity |]. split; [exact Hp2 |]. split; [reflexivity | lia].
Qed.

(** X8: when the configuration allows no attempt ([max_retries <= 0])
    and the window is resolved, a run sends nothing, reports success
    with zero records and leaves the world as it was. *)
Theorem run_without_attempts_reports_success (w : World) (start : Z) :
  max_retries (config E) <= 0 ->
  resolve_start_time E symbol interval start_time w = (Return start, w) ->
  run w = (Return (0, "success"), w).
Proof.
  intros Hzero Hres.
  apply (run_empty_fetch _ _ _ _ _ _ w w start None Hres); [| left; reflexivity].
  unfold get_klines.
  destruct (make_request_trace E "/api/v3/klines"
              (let params := [("symbol", PStr symbol); ("interval", PStr interval);
                              ("limit", PInt (Z.min limit 1000))] in
               let params := if truthy_opt (Some start)
                             then params ++ [("startTime", PInt (or_else (Some start) 0))]
                             else params in
               if truthy_opt end_time
               then params ++ [("endTime", PInt (or_else end_time 0))] else params) w)
    as (k & _ & _ & _ & Hnone).
  exact (Hnone Hzero).
Qed.

End RunRequests.

(** ** Window resolution: edges *)

Section WindowEdges.

Import BinanceAPI CandleCollector Continuous Spec RunPaths.

Variable E : Env.
Variables symbol interval : string.

Local Ltac world_simpl :=
  cbn [fst snd candles collection_control collection_logs http_log sleep_log
       insert_log set_candles set_collection_control set_collection_logs
       set_http_log set_sleep_log set_insert_log].

(** X9: an interval that is not in [INTERVAL_MS], on a pair whose cursor
    holds a non-zero time, makes a run without explicit start fail
    before any request: it returns zero with the text of the [KeyError]
    (the quoted interval), sends nothing, stores nothing, logs one error
    event with start 0 and marks the cursor row as in error. *)
Theorem unknown_interval_fails_before_fetch (end_time : option Z) (limit : Z)
    (w : World) (row : control_row) (t : Z) :
  INTERVAL_MS !! interval = None ->
  collection_control w !! (symbol, interval) = Some row ->
  last_collected_time row = Some t -> t <> 0 ->
  let r := collect_single_symbol E symbol interval None end_time limit w in
  r.1 = Return (0, "'" +:+ interval +:+ "'") /\
  http_log r.2 = http_log w /\
  insert_log r.2 = insert_log w /\
  candles r.2 = candles w /\
  collection_logs r.2 =
    collection_logs w ++
    [error_row E symbol interval None end_time ("'" +:+ interval +:+ "'")] /\
  (status <$> collection_control r.2 !! (symbol, interval)) = Some "error" /\
  (error_count <$> collection_control r.2 !! (symbol, interval)) =
    Some (error_count row + 1).
Proof.
  intros Hms Hrow Ht Hnz r.
  assert (Hres : resolve_start_time E symbol interval None w =
                 (Raise (key_error interval), w)).
  { unfold resolve_start_time, bind, get_last_collected_time, interval_ms, raise.
    rewrite Hrow, Ht. unfold truthy_opt, truthy.
    destruct (Z.eqb_spec t 0); [contradiction |]. cbn [negb]. rewrite Hms. reflexivity. }
  subst r. rewrite (run_resolve_raises _ _ _ _ _ _ _ _ Hres), on_exception_spec.
  world_simpl. unfold error_cursor. rewrite lookup_insert_eq, Hrow. cbn.
  repeat split.
Qed.

(** The start a caller derives from the cursor is the one the job
    derives itself. *)
Lemma explicit_start_same_run (end_time : option Z) (limit : Z) (w : World) (start : Z) :
  resolve_start_time E symbol interval None w = (Return start, w) ->
  collect_single_symbol E symbol interval (Some start) end_time limit w =
  collect_single_symbol E symbol interval None end_time limit w.
Proof.
  intros Hres. unfold collect_single_symbol, try_block. rewrite Hres. reflexivity.
Qed.

Lemma resolve_defined (w : World) :
  is_Some (INTERVAL_MS !! interval) ->
  exists start, resolve_start_time E symbol interval None w = (Return start, w).
Proof.
  intros [ms Hms].
  unfold resolve_start_time, bind, get_last_collected_time, interval_ms, ret.
  destruct (truthy_opt _); [rewrite Hms |]; eauto.
Qed.

(** X10: on a supported interval the job a worker runs, with the start
    it computes from the cursor and limit 100, leaves exactly the world
    of a run of [collect_single_symbol] without explicit start: the two
    copies of the window rule agree. *)
Theorem worker_job_is_a_cursor_run (w : World) :
  is_Some (INTERVAL_MS !! interval) ->
  worker_job E symbol interval w =
  (Return tt, (collect_single_symbol E symbol interval None None 100 w).2).
Proof.
  intros Hms. destruct (resolve_defined w Hms) as (start & Hres).
  rewrite <- (explicit_start_same_run None 100 w start Hres).
  unfold worker_job, bind.
  unfold resolve_start_time, bind in Hres.
  destruct (get_last_collected_time symbol interval w) as [[last |] w0] eqn:Hlast;
    [| unfold get_last_collected_time in Hlast; discriminate].
  assert (w0 = w) as -> by (unfold get_last_collected_time in Hlast; congruence).
  destruct (truthy_opt last).
  - unfold bind in Hres.
    destruct (interval_ms interval w) as [[ms |] w1]; [| discriminate].
    unfold ret in *. inversion Hres; subst.
    destruct (collect_single_symbol E symbol interval (Some (or_else last 0 + ms)) None 100 w).
    reflexivity.
  - unfold ret in *. inversion Hres; subst.
    destruct (collect_single_symbol E symbol interval (Some (now E - days_ms 30)) None 100 w).
    reflexivity.
Qed.

(** X11: when the upstream honours [startTime] (no returned candle opens
    before the requested start), a successful run driven by a non-zero
    cursor moves the cursor forward by at least one interval. *)
Theorem cursor_run_advances (end_time : option Z) (limit : Z) (w w1 : World)
    (row : control_row) (t ms : Z) (klines : list kline)
    (c : candle_row) (cs : list candle_row) :
  INTERVAL_MS !! interval = Some ms ->
  collection_control w !! (symbol, interval) = Some row ->
  last_collected_time row = Some t -> t <> 0 ->
  get_klines E symbol interval (Some (t + ms)) end_time limit w =
    (Return (Some klines), w1) ->
  Forall (fun k => t + ms <= k_open_time k) klines ->
  convert_klines E symbol interval klines = c :: cs ->
  execute_many_fault E (length (insert_log w)) (c :: cs) = None ->
  exists t',
    (last_collected_time <$>
       collection_control
         (collect_single_symbol E symbol interval None end_time limit w).2
       !! (symbol, interval)) = Some (Some t') /\
    t + ms <= t' /\ t < t'.
Proof.
  intros Hms Hrow Ht Hnz Hget Hopen Hconv Hfault.
  assert (Hres : resolve_start_time E symbol interval None w = (Return (t + ms), w)).
  { unfold resolve_start_time, bind, get_last_collected_time, interval_ms, ret.
    rewrite Hrow, Ht. unfold truthy_opt, or_else, truthy.
    destruct (Z.eqb_spec t 0); [contradiction |]. cbn [negb]. rewrite Hms. reflexivity. }
  destruct (get_klines_frame _ _ _ _ _ _ _ _ _ Hget) as [_ Hins].
  rewrite <- Hins in Hfault.
  rewrite (run_stored _ _ _ _ _ _ _ _ _ _ _ _ Hres Hget Hconv Hfault).
  world_simpl. rewrite lookup_insert_eq. cbn.
  exists (max_open_time c cs). split; [reflexivity |].
  pose proof (INTERVAL_MS_positive _ _ Hms) as Hpos.
  assert (t + ms <= open_time c).
  { assert (Hc : c ∈ convert_klines E symbol interval klines) by (rewrite Hconv; left).
    rewrite convert_klines_filter in Hc.
    apply list_elem_of_fmap in Hc as (k & -> & Hk).
    apply list_elem_of_filter in Hk as [_ Hk].
    rewrite Forall_forall in Hopen. cbn. apply Hopen. exact Hk. }
  pose proof (max_open_time_upper c cs c ltac:(left)). lia.
Qed.

End WindowEdges.

(** ** The one-shot sweep *)

Section Sweep.

Import BinanceAPI CandleCollector Spec.

Variable E : Env.
Variable interval : string.
Variable limit : Z.




(** X13: on an interval that is not in [INTERVAL_MS] the sweep is not
    protected: at the first symbol whose cursor holds a non-zero time
    the [KeyError] leaves [collect_all_tokens_single], before any run
    and with the world unchanged; the symbols that follow are not
    processed. *)
Theorem sweep_unknown_interval_raises (symbol : string) (rest : list string)
    (w : World) (row : control_row) (t : Z) :
  INTERVAL_MS !! interval = None ->
  stop_event_is_set E 0 = false ->
  collection_control w !! (symbol, interval) = Some row ->
  last_collected_time row = Some t -> t <> 0 ->
  collect_all_tokens_single E interval limit (symbol :: rest) w =
    (Raise (key_error interval), w).
Proof.
  intros Hms Hstop Hrow Ht Hnz.
  unfold collect_all_tokens_single. cbn [sweep_loop]. rewrite Hstop.
  unfold bind, get_last_collected_time, interval_ms, raise.
  rewrite Hrow, Ht. unfold truthy_opt, truthy.
  destruct (Z.eqb_spec t 0); [contradiction |]. cbn [negb]. rewrite Hms. reflexivity.
Qed.

End Sweep.

(** ** Gap-fill: edges *)

Section GapFillEdges.

Import BinanceAPI CandleCollector Spec.

Variable E : Env.
Variables symbol interval : string.

(** X14: on an interval that is not in [INTERVAL_MS], gap-fill over a
    positive number of days raises the [KeyError] in its first
    iteration, before any call of [collect_single_symbol], and leaves
    the world unchanged. *)
Theorem gap_fill_unknown_interval_raises (days_back : Z) (fuel : nat) (w : World) :
  INTERVAL_MS !! interval = None ->
  0 < days_back ->
  stop_event_is_set E 0 = false ->
  fill_missing_data (S fuel) E symbol interval days_back w =
    Some (Raise (key_error interval), [], w).
Proof.
  intros Hms Hdays Hstop. unfold fill_missing_data. cbn [fill_loop].
  replace (now E - days_ms days_back <? now E) with true
    by (symmetry; apply Z.ltb_lt; unfold days_ms; lia).
  rewrite Hstop. cbn [andb negb]. unfold interval_ms. rewrite Hms. reflexivity.
Qed.

(** X15: gap-fill over zero or a negative number of days does nothing:
    it returns 0 at once, whatever the interval, with no window and the
    world unchanged. *)
Theorem gap_fill_nothing_to_do (days_back : Z) (fuel : nat) (w : World) :
  days_back <= 0 ->
  fill_missing_data fuel E symbol interval days_back w = Some (Return 0, [], w).
Proof.
  intros Hdays. unfold fill_missing_data.
  destruct fuel; cbn [fill_loop];
    (replace (now E - days_ms days_back <? now E) with false
       by (symmetry; apply Z.ltb_ge; unfold days_ms; lia));
    reflexivity.
Qed.





End GapFillEdges.

(** ** Continuous mode: more invariants *)

Section ContinuousMore.

Import CandleCollector Continuous.




(** X19: [_schedule_collection] never removes or reorders what is
    queued: it appends the tasks of the symbols that come before the
    first test at which the stop event is set, in order, and nothing
    after it. *)
Theorem schedule_stops_at_signal (E : Env) (interval : string) (tokens : list string)
    (m : nat) (q : list (option (string * string))) :
  (m <= length tokens)%nat ->
  (forall i, (i < m)%nat -> stop_event_is_set E i = false) ->
  (m = length tokens \/ stop_event_is_set E m = true) ->
  _schedule_collection E interval tokens 0 q =
    q ++ map (fun symbol => Some (symbol, interval)) (take m tokens).
Proof.
  unfold _schedule_collection.
  assert (Hgen : forall tokens m k q,
            (m <= length tokens)%nat ->
            (forall i, (i < m)%nat -> stop_event_is_set E (k + i) = false) ->
            (m = length tokens \/ stop_event_is_set E (k + m) = true) ->
            schedule_loop E interval tokens k q =
              q ++ map (fun symbol => Some (symbol, interval)) (take m tokens)).
  { clear. induction tokens as [| symbol rest IH]; intros m k q Hm Hgo Hend.
    - cbn in Hm. replace m with 0%nat by lia. cbn. rewrite app_nil_r. reflexivity.
    - cbn [schedule_loop]. destruct m as [| m].
      + destruct Hend as [Heq | Hset]; [cbn in Heq; lia |].
        rewrite Nat.add_0_r in Hset. rewrite Hset. cbn. rewrite app_nil_r. reflexivity.
      + pose proof (Hgo 0%nat ltac:(lia)) as H0. rewrite Nat.add_0_r in H0. rewrite H0.
        rewrite (IH m (S k)).
        * cbn [take map]. rewrite <- app_assoc. reflexivity.
        * cbn in Hm. lia.
        * intros i Hi. replace (S k + i)%nat with (k + S i)%nat by lia. apply Hgo. lia.
        * destruct Hend as [Heq | Hset]; [left; cbn in Heq; lia | right].
          replace (S k + m)%nat with (k + S m)%nat by lia. exact Hset. }
  intros Hm Hgo Hend. apply Hgen; assumption.
Qed.

End ContinuousMore.

(** ** Indicator values *)

Section IndicatorValues.

Import TechnicalIndicators Spec.

(** X20: for a period of at least 1, [ema] returns a line of the length
    of its input in which [None] occupies exactly the positions that
    have seen fewer than [period] prices. *)
Theorem ema_line_aligned (prices : list Q) (period : Z) :
  1 <= period ->
  exists out, ema prices period = Return out /\ aligned (length prices) period out.
Proof. apply ema_aligned. Qed.

Lemma slice_prefix {A} (l : list A) (n : Z) :
  1 <= n <= len l -> slice l 0 n = take (Z.to_nat n) l.
Proof.
  intros Hn. destruct (slice_inside l 0 n ltac:(lia) ltac:(lia) ltac:(lia)) as [-> _].
  rewrite Z.sub_0_r. reflexivity.
Qed.

Lemma sma_lookup (prices : list Q) (period : Z) (out : list (option Q)) (i : nat) :
  1 <= period -> period <= len prices ->
  sma prices period = Return out ->
  period - 1 <= Z.of_nat i < len prices ->
  out !! i =
    Some (Some (sum (slice prices (Z.of_nat i - period + 1) (Z.of_nat i + 1))
                / inject_Z period)%Q).
Proof.
  intros Hp Hlen Hsma Hi. unfold sma in Hsma.
  replace (len prices <? period) with false in Hsma by (symmetry; apply Z.ltb_ge; lia).
  destruct (for_each_defined
              (fun i =>
                 if i <? period - 1 then Return None
                 else
                   let? v := div (sum (slice prices (i - period + 1) (i + 1)))
                               (inject_Z period) in
                   Return (Some v))
              (range 0 (len prices))) as (out' & Hout & Hl & Hnth).
  { intros j _. destruct (j <? period - 1); [eauto |].
    rewrite div_by_int by lia. cbn [obind]. eauto. }
  rewrite Hout in Hsma. inversion Hsma; subst out'.
  destruct (out !! i) as [x |] eqn:Hx.
  - destruct (Hnth _ _ Hx) as (j & Hj & Hbody).
    apply lookup_range in Hj as [-> _]. rewrite Z.add_0_l in Hbody.
    replace (Z.of_nat i <? period - 1) with false in Hbody
      by (symmetry; apply Z.ltb_ge; lia).
    rewrite div_by_int in Hbody by lia. inversion Hbody. reflexivity.
  - apply lookup_ge_None in Hx. rewrite Hl, length_range in Hx. lia.
Qed.

(** X21: with at least [period] prices, the first value of the EMA is
    the SMA at the same position: the average of the first [period]
    prices. *)
Theorem ema_starts_at_sma (prices : list Q) (period : Z) :
  1 <= period -> period <= len prices ->
  exists e s,
    ema prices period = Return e /\ sma prices period = Return s /\
    e !! Z.to_nat (period - 1) =
      Some (Some (sum (take (Z.to_nat period) prices) / inject_Z period)%Q) /\
    s !! Z.to_nat (period - 1) = e !! Z.to_nat (period - 1).
Proof.
  intros Hp Hlen.
  destruct (sma_aligned prices period Hp) as (s & Hs & _).
  pose proof (sma_lookup prices period s (Z.to_nat (period - 1)) Hp Hlen Hs ltac:(lia))
    as Hsl.
  replace (Z.of_nat (Z.to_nat (period - 1)) - period + 1) with 0 in Hsl by lia.
  replace (Z.of_nat (Z.to_nat (period - 1)) + 1) with period in Hsl by lia.
  rewrite slice_prefix in Hsl by lia.
  unfold ema.
  replace (len prices <? period) with false by (symmetry; apply Z.ltb_ge; lia).
  rewrite !div_by_int by lia. cbn [obind].
  destruct (ema_loop_defined (2 / inject_Z (period + 1))%Q prices
              (range period (len prices))
              ltac:(intros i Hi; apply elem_of_range in Hi; lia)
              (sum (slice prices 0 period) / inject_Z period)%Q)
    as (vs & Hvs & _).
  rewrite Hvs. cbn [obind].
  eexists. exists s. split; [reflexivity |]. split; [exact Hs |].
  assert (He : (replicate_py (period - 1) None ++
                Some (sum (slice prices 0 period) / inject_Z period)%Q :: map Some vs)
               !! Z.to_nat (period - 1) =
               Some (Some (sum (take (Z.to_nat period) prices) / inject_Z period)%Q)).
  { rewrite lookup_app_r by (rewrite length_replicate_py; lia).
    rewrite length_replicate_py, Nat.sub_diag. cbn. rewrite slice_prefix by lia.
    reflexivity. }
  split; [exact He | rewrite He; exact Hsl].
Qed.

End IndicatorValues.

Section IndicatorRanges.

Import TechnicalIndicators Spec.

Lemma fold_left_Qplus_acc (xs : list Q) :
  forall acc, (fold_left Qplus xs acc == acc + fold_left Qplus xs 0)%Q.
Proof.
  induction xs as [| x xs IH]; intros acc; cbn [fold_left].
  - ring.
  - rewrite (IH (acc + x)%Q), (IH (0 + x)%Q). ring.
Qed.

Lemma sum_cons (x : Q) (xs : list Q) : (sum (x :: xs) == x + sum xs)%Q.
Proof. unfold sum. cbn [fold_left]. rewrite fold_left_Qplus_acc. ring. Qed.

Lemma sum_bounds (lo hi : Q) (xs : list Q) :
  Forall (fun x => (lo <= x <= hi)%Q) xs ->
  (inject_Z (len xs) * lo <= sum xs <= inject_Z (len xs) * hi)%Q.
Proof.
  induction 1 as [| x xs [Hlo Hhi] _ [IHlo IHhi]].
  - unfold len, sum. cbn. split; ring_simplify; apply Qle_refl.
  - assert (Hlen : (inject_Z (len (x :: xs)) == inject_Z (len xs) + 1)%Q).
    { unfold len. cbn [length]. rewrite Nat2Z.inj_succ, <- Z.add_1_r, inject_Z_plus.
      reflexivity. }
    rewrite Hlen, sum_cons. split; nra.
Qed.

Lemma average_bounds (lo hi : Q) (xs : list Q) (n : Z) :
  1 <= n -> len xs = n ->
  Forall (fun x => (lo <= x <= hi)%Q) xs ->
  (lo <= sum xs / inject_Z n <= hi)%Q.
Proof.
  intros Hn Hlen Hall. destruct (sum_bounds lo hi xs Hall) as [Hl Hh].
  rewrite Hlen in Hl, Hh. pose proof (inject_Z_pos n ltac:(lia)) as Hpos.
  split.
  - apply Qle_shift_div_l; [exact Hpos |]. rewrite Qmult_comm. exact Hl.
  - apply Qle_shift_div_r; [exact Hpos |]. rewrite Qmult_comm. exact Hh.
Qed.

Lemma sma_values_bounded (prices : list Q) (period : Z) (lo hi : Q)
    (out : list (option Q)) :
  1 <= period ->
  Forall (fun x => (lo <= x <= hi)%Q) prices ->
  sma prices period = Return out ->
  forall i v, out !! i = Some (Some v) -> (lo <= v <= hi)%Q.
Proof.
  intros Hp Hall Hsma i v Hi.
  destruct (Z_lt_le_dec (len prices) period) as [Hshort | Hlong].
  - unfold sma in Hsma.
    replace (len prices <? period) with true in Hsma by (symmetry; apply Z.ltb_lt; lia).
    inversion Hsma; subst out. unfold replicate_py in Hi.
    apply lookup_repeat_eq in Hi. discriminate.
  - destruct (sma_aligned prices period Hp) as (out' & Hout' & Hlen & Hnone).
    rewrite Hsma in Hout'. inversion Hout'; subst out'.
    pose proof (lookup_lt_Some _ _ _ Hi) as Hlt. rewrite Hlen in Hlt.
    assert (Hge : period - 1 <= Z.of_nat i).
    { destruct (Z_lt_le_dec (Z.of_nat i) (period - 1)) as [Hc | Hc]; [| exact Hc].
      assert (Some v = None) by (apply (Hnone _ _ Hi); lia). discriminate. }
    rewrite (sma_lookup prices period out i Hp Hlong Hsma ltac:(unfold len; lia)) in Hi.
    inversion Hi; subst v.
    apply average_bounds; [exact Hp | | apply slice_Forall; exact Hall].
    destruct (slice_inside prices (Z.of_nat i - period + 1) (Z.of_nat i + 1)
                ltac:(lia) ltac:(lia) ltac:(unfold len; lia)) as [_ Hl].
    unfold len. rewrite Hl. lia.
Qed.


Lemma rsi_value_range (avg_gain avg_loss v : Q) :
  (0 <= avg_gain)%Q -> (0 <= avg_loss)%Q ->
  rsi_value avg_gain avg_loss = Return v -> (0 <= v <= 100)%Q.
Proof.
  intros Hg Hl. unfold rsi_value.
  destruct (Qeq_bool avg_loss 0) eqn:Hz.
  - intros [= <-]. split; [discriminate | apply Qle_refl].
  - apply Qeq_bool_neq in Hz.
    assert (Hpos : (0 < avg_loss)%Q).
    { destruct (Qlt_le_dec 0 avg_loss) as [H | H]; [exact H |].
      exfalso. apply Hz. apply Qle_antisym; assumption. }
    unfold div at 1. rewrite Qeq_bool_false by exact Hz. cbn [obind].
    pose proof (Qdiv_nonneg _ _ Hg Hpos) as Hrs.
    set (rs := (avg_gain / avg_loss)%Q) in *. clearbody rs.
    unfold div. rewrite Qeq_bool_false by lra. cbn [obind].
    intros [= <-].
    assert (H1 : (0 <= 100 / (1 + rs))%Q) by (apply Qle_shift_div_l; lra).
    assert (H2 : (100 / (1 + rs) <= 100)%Q) by (apply Qle_shift_div_r; lra).
    lra.
Qed.

Lemma rsi_loop_range (period : Z) (gains losses : list Q) (idxs : list Z) :
  1 <= period ->
  Forall (fun x => (0 <= x)%Q) gains ->
  Forall (fun x => (0 <= x)%Q) losses ->
  forall avg_gain avg_loss out,
    (0 <= avg_gain)%Q -> (0 <= avg_loss)%Q ->
    rsi_loop period gains losses idxs avg_gain avg_loss = Return out ->
    forall i v, out !! i = Some (Some v) -> (0 <= v <= 100)%Q.
Proof.
  intros Hp Hgains Hlosses.
  induction idxs as [| j rest IH]; intros avg_gain avg_loss out Hg Hl Hrun i v Hi.
  - inversion Hrun; subst. rewrite lookup_nil in Hi. discriminate.
  - cbn [rsi_loop] in Hrun.
    destruct (index gains j) as [g |] eqn:Hgi; [| discriminate]. cbn [obind] in Hrun.
    rewrite div_by_int in Hrun by lia. cbn [obind] in Hrun.
    destruct (index losses j) as [l |] eqn:Hli; [| discriminate]. cbn [obind] in Hrun.
    rewrite div_by_int in Hrun by lia. cbn [obind] in Hrun.
    assert (Hin : forall (xs : list Q) x, Forall (fun x => (0 <= x)%Q) xs ->
              index xs j = Return x -> (0 <= x)%Q).
    { intros xs x Hall Hx. unfold index in Hx.
      destruct ((_ <? 0) || _); [discriminate |].
      destruct (xs !! _) as [y |] eqn:Hy; [| discriminate].
      inversion Hx; subst. exact (proj1 (Forall_lookup _ _) Hall _ _ Hy). }
    pose proof (Hin _ _ Hgains Hgi) as Hg0. pose proof (Hin _ _ Hlosses Hli) as Hl0.
    assert (Hstep : forall avg x, (0 <= avg)%Q -> (0 <= x)%Q ->
              (0 <= (avg * inject_Z (period - 1) + x) / inject_Z period)%Q).
    { intros avg x Ha Hx. apply Qdiv_nonneg; [| apply inject_Z_pos; lia].
      replace 0%Q with (0 + 0)%Q by reflexivity.
      apply Qplus_le_compat; [| exact Hx].
      apply Qmult_le_0_compat; [exact Ha | apply inject_Z_nonneg; lia]. }
    pose proof (Hstep _ _ Hg Hg0) as Hg'. pose proof (Hstep _ _ Hl Hl0) as Hl'.
    destruct (rsi_value _ _) as [x |] eqn:Hv; [| discriminate]. cbn [obind] in Hrun.
    destruct (rsi_loop period gains losses rest _ _) as [vs |] eqn:Hrest; [| discriminate].
    cbn [obind] in Hrun. inversion Hrun; subst out.
    destruct i as [| i]; cbn in Hi.
    + inversion Hi; subst. exact (rsi_value_range _ _ _ Hg' Hl' Hv).
    + exact (IH _ _ _ Hg' Hl' Hrest i v Hi).
Qed.

(** X23: for a period of at least 1 every value [rsi] returns lies
    between 0 and 100. *)
Theorem rsi_between_0_and_100 (prices : list Q) (period : Z) :
  1 <= period ->
  exists out,
    rsi prices period = Return out /\
    forall i v, out !! i = Some (Some v) -> (0 <= v <= 100)%Q.
Proof.
  intros Hp. destruct (rsi_aligned prices period Hp) as (out & Hout & _).
  exists out. split; [exact Hout |].
  unfold rsi in Hout.
  destruct (Z.ltb_spec (len prices) (period + 1)) as [Hshort | Hlong].
  - inversion Hout; subst out. intros i v Hi. unfold replicate_py in Hi.
    apply lookup_repeat_eq in Hi. discriminate.
  - destruct (for_each _ (range 1 (len prices))) as [deltas |]; [| discriminate].
    cbn [obind] in Hout.
    set (gains := map (fun delta => max2 delta 0) deltas) in *.
    set (losses := map (fun delta => Qabs (min2 delta 0)) deltas) in *.
    assert (Hgains : Forall (fun x => (0 <= x)%Q) gains).
    { apply Forall_forall. intros x Hx. apply list_elem_of_fmap in Hx as (d & -> & _).
      apply max2_zero_nonneg. }
    assert (Hlosses : Forall (fun x => (0 <= x)%Q) losses).
    { apply Forall_forall. intros x Hx. apply list_elem_of_fmap in Hx as (d & -> & _).
      apply Qabs_nonneg. }
    rewrite !div_by_int in Hout by lia. cbn [obind] in Hout.
    assert (Hag : (0 <= sum (slice gains 0 period) / inject_Z period)%Q).
    { apply Qdiv_nonneg; [| apply inject_Z_pos; lia].
      apply sum_nonneg, slice_Forall, Hgains. }
    assert (Hal : (0 <= sum (slice losses 0 period) / inject_Z period)%Q).
    { apply Qdiv_nonneg; [| apply inject_Z_pos; lia].
      apply sum_nonneg, slice_Forall, Hlosses. }
    destruct (rsi_value _ _) as [first |] eqn:Hfirst; [| discriminate].
    cbn [obind] in Hout.
    destruct (rsi_loop period gains losses _ _ _) as [tail |] eqn:Htail; [| discriminate].
    cbn [obind] in Hout. inversion Hout; subst out.
    intros i v Hi.
    destruct (decide (i < length (replicate_py period (@None Q)))%nat) as [Hlt | Hge].
    + rewrite lookup_app_l in Hi by exact Hlt. unfold replicate_py in Hi.
      apply lookup_repeat_eq in Hi. discriminate.
    + rewrite lookup_app_r in Hi by lia.
      destruct (i - length (replicate_py period (@None Q)))%nat as [| j]; cbn in Hi.
      * inversion Hi; subst. exact (rsi_value_range _ _ _ Hag Hal Hfirst).
      * exact (rsi_loop_range period gains losses _ Hp Hgains Hlosses _ _ _ Hag Hal Htail
                 j v Hi).
Qed.

End IndicatorRanges.

Section StochasticRange.

Import TechnicalIndicators Spec.

Lemma fold_max2_upper (xs : list Q) :
  forall acc,
    (acc <= fold_left max2 xs acc)%Q /\
    forall x, x ∈ xs -> (x <= fold_left max2 xs acc)%Q.
Proof.
  induction xs as [| y ys IH]; intros acc; cbn [fold_left].
  - split; [apply Qle_refl | intros x Hx; inversion Hx].
  - destruct (IH (max2 acc y)) as [Hacc Hall].
    assert (Hm : (acc <= max2 acc y /\ y <= max2 acc y)%Q).
    { unfold max2. destruct (Qlt_le_dec acc y); split; lra. }
    split; [lra |].
    intros x Hx. apply elem_of_cons in Hx as [-> | Hx]; [lra | apply Hall; exact Hx].
Qed.

Lemma fold_min2_lower (xs : list Q) :
  forall acc,
    (fold_left min2 xs acc <= acc)%Q /\
    forall x, x ∈ xs -> (fold_left min2 xs acc <= x)%Q.
Proof.
  induction xs as [| y ys IH]; intros acc; cbn [fold_left].
  - split; [apply Qle_refl | intros x Hx; inversion Hx].
  - destruct (IH (min2 acc y)) as [Hacc Hall].
    assert (Hm : (min2 acc y <= acc /\ min2 acc y <= y)%Q).
    { unfold min2. destruct (Qlt_le_dec y acc); split; lra. }
    split; [lra |].
    intros x Hx. apply elem_of_cons in Hx as [-> | Hx]; [lra | apply Hall; exact Hx].
Qed.

Lemma max_seq_upper (xs : list Q) (m : Q) :
  max_seq xs = Return m -> forall x, x ∈ xs -> (x <= m)%Q.
Proof.
  destruct xs as [| y ys]; [discriminate |]. intros [= <-] x Hx.
  destruct (fold_max2_upper ys y) as [Hacc Hall].
  apply elem_of_cons in Hx as [-> | Hx]; [exact Hacc | apply Hall; exact Hx].
Qed.

Lemma min_seq_lower (xs : list Q) (m : Q) :
  min_seq xs = Return m -> forall x, x ∈ xs -> (m <= x)%Q.
Proof.
  destruct xs as [| y ys]; [discriminate |]. intros [= <-] x Hx.
  destruct (fold_min2_lower ys y) as [Hacc Hall].
  apply elem_of_cons in Hx as [-> | Hx]; [exact Hacc | apply Hall; exact Hx].
Qed.

(** The window that ends at position [i] contains the value at [i]. *)
Lemma slice_contains_last {A} (l : list A) (i k : Z) (x : A) :
  1 <= k -> k - 1 <= i -> l !! Z.to_nat i = Some x ->
  x ∈ slice l (i - k + 1) (i + 1).
Proof.
  intros Hk Hi Hx. pose proof (lookup_lt_Some _ _ _ Hx) as Hlt.
  destruct (slice_inside l (i - k + 1) (i + 1) ltac:(lia) ltac:(lia)
              ltac:(unfold len; lia)) as [-> _].
  apply list_elem_of_lookup. exists (Z.to_nat (k - 1)).
  rewrite lookup_take_lt by lia. rewrite lookup_drop.
  replace (Z.to_nat (i - k + 1) + Z.to_nat (k - 1))%nat with (Z.to_nat i) by lia.
  exact Hx.
Qed.

(** X24: when every close lies between the low and the high of its
    candle, every %K and every %D value [stochastic] returns lies
    between 0 and 100, for periods of at least 1. *)
Theorem stochastic_between_0_and_100 (highs lows closes : list Q)
    (k_period d_period : Z) :
  length highs = length lows -> length lows = length closes ->
  1 <= k_period -> 1 <= d_period ->
  (forall i h l c,
     highs !! i = Some h -> lows !! i = Some l -> closes !! i = Some c ->
     (l <= c <= h)%Q) ->
  exists k_values d_values,
    stochastic highs lows closes k_period d_period = Return (k_values, d_values) /\
    (forall i v, k_values !! i = Some (Some v) -> (0 <= v <= 100)%Q) /\
    (forall i v, d_values !! i = Some (Some v) -> (0 <= v <= 100)%Q).
Proof.
  intros Hhl Hlc Hk Hd Hcandle.
  destruct (stochastic_aligned highs lows closes k_period d_period Hhl Hlc Hk Hd)
    as (k_values & d_values & Hrun & _ & _).
  exists k_values, d_values. split; [exact Hrun |].
  unfold stochastic in Hrun.
  replace (len highs =? len lows) with true in Hrun
    by (symmetry; apply Z.eqb_eq; unfold len; lia).
  replace (len lows =? len closes) with true in Hrun
    by (symmetry; apply Z.eqb_eq; unfold len; lia).
  cbn [negb orb] in Hrun.
  match type of Hrun with
  | obind (for_each ?b ?l) _ = _ =>
      set (body := b) in *;
      destruct (for_each_defined body l) as (kv & Hkv & Hlen & Hnth)
  end.
  { intros i Hi. destruct (for_each body (range 0 (len closes))) as [out |] eqn:Hfe;
      [| discriminate].
    clear Hrun. revert out Hfe Hi.
    generalize (range 0 (len closes)). intros rng.
    induction rng as [| j rest IH]; intros out Hfe Hi; [inversion Hi |].
    cbn [for_each] in Hfe. destruct (body j) as [b |] eqn:Hb; [| discriminate].
    cbn [obind] in Hfe. destruct (for_each body rest) as [bs |] eqn:Hbs; [| discriminate].
    apply elem_of_cons in Hi as [-> | Hi]; [eauto | exact (IH bs eq_refl Hi)]. }
  rewrite Hkv in Hrun. cbn [obind] in Hrun.
  destruct (sma (not_none kv) d_period) as [tail |] eqn:Htail; [| discriminate].
  cbn [obind] in Hrun. inversion Hrun; subst k_values d_values. clear Hrun.
  assert (Hkrange : forall i v, kv !! i = Some (Some v) -> (0 <= v <= 100)%Q).
  { intros i v Hi. destruct (Hnth _ _ Hi) as (j & Hj & Hb).
    apply lookup_range in Hj as [-> Hlt]. rewrite Z.add_0_l in *.
    unfold body in Hb.
    destruct (Z.of_nat i <? k_period - 1) eqn:Hlow; [discriminate |].
    apply Z.ltb_ge in Hlow.
    destruct (max_seq _) as [hh |] eqn:Hmax; [| discriminate]. cbn [obind] in Hb.
    destruct (min_seq _) as [ll |] eqn:Hmin; [| discriminate]. cbn [obind] in Hb.
    destruct (Qeq_bool hh ll) eqn:Heq.
    - inversion Hb; subst. split; discriminate.
    - destruct (index_in_range closes (Z.of_nat i) ltac:(lia)) as (c & Hci & Hc).
      rewrite Hci in Hb. cbn [obind] in Hb.
      destruct (index_in_range highs (Z.of_nat i) ltac:(unfold len in *; lia))
        as (h & _ & Hh).
      destruct (index_in_range lows (Z.of_nat i) ltac:(unfold len in *; lia))
        as (l & _ & Hl).
      rewrite Nat2Z.id in Hc, Hh, Hl.
      destruct (Hcandle i h l c Hh Hl Hc) as [Hlc' Hch].
      assert (Hh' : highs !! Z.to_nat (Z.of_nat i) = Some h) by (rewrite Nat2Z.id; exact Hh).
      assert (Hl' : lows !! Z.to_nat (Z.of_nat i) = Some l) by (rewrite Nat2Z.id; exact Hl).
      pose proof (max_seq_upper _ _ Hmax h
                    (slice_contains_last highs (Z.of_nat i) k_period h Hk Hlow Hh')) as Hhh.
      pose proof (min_seq_lower _ _ Hmin l
                    (slice_contains_last lows (Z.of_nat i) k_period l Hk Hlow Hl')) as Hll.
      apply Qeq_bool_neq in Heq.
      assert (Hgap : (0 < hh - ll)%Q).
      { destruct (Qlt_le_dec ll hh) as [H | H]; [lra |].
        exfalso. apply Heq. apply Qle_antisym; lra. }
      unfold div in Hb. rewrite Qeq_bool_false in Hb by lra. cbn [obind] in Hb.
      inversion Hb; subst v.
      assert (H0 : (0 <= (c - ll) / (hh - ll))%Q) by (apply Qle_shift_div_l; lra).
      assert (H1 : ((c - ll) / (hh - ll) <= 1)%Q) by (apply Qle_shift_div_r; lra).
      lra. }
  split; [exact Hkrange |].
  intros i v Hi.
  destruct (decide (i < length (replicate_py (none_count kv) (@None Q)))%nat) as [Hlt | Hge].
  - rewrite lookup_app_l in Hi by exact Hlt. unfold replicate_py in Hi.
    apply lookup_repeat_eq in Hi. discriminate.
  - rewrite lookup_app_r in Hi by lia.
    refine (sma_values_bounded (not_none kv) d_period 0 100 tail Hd _ Htail _ v Hi).
    apply Forall_forall. intros x Hx. unfold not_none in Hx.
    apply list_elem_of_omap in Hx as (o & Ho & Hid). cbn in Hid. subst o.
    apply list_elem_of_lookup in Ho as (j & Hj). exact (Hkrange j x Hj).
Qed.

End StochasticRange.

Section Saturation.

Import TechnicalIndicators Spec.

Lemma sum_zero (xs : list Q) :
  Forall (fun x => (x == 0)%Q) xs -> (sum xs == 0)%Q.
Proof.
  induction 1 as [| x xs Hx _ IH]; [reflexivity |].
  rewrite sum_cons, Hx, IH. ring.
Qed.

Lemma rsi_value_no_loss (avg_gain avg_loss : Q) :
  (avg_loss == 0)%Q -> rsi_value avg_gain avg_loss = Return 100%Q.
Proof.
  intros Hz. unfold rsi_value.
  replace (Qeq_bool avg_loss 0) with true by (symmetry; apply Qeq_bool_iff; exact Hz).
  reflexivity.
Qed.

Lemma rsi_loop_no_loss (period : Z) (gains losses : list Q) (idxs : list Z) :
  1 <= period ->
  Forall (fun x => (x == 0)%Q) losses ->
  forall avg_gain avg_loss out,
    (avg_loss == 0)%Q ->
    rsi_loop period gains losses idxs avg_gain avg_loss = Return out ->
    forall i v, out !! i = Some (Some v) -> v = 100%Q.
Proof.
  intros Hp Hlosses.
  induction idxs as [| j rest IH]; intros avg_gain avg_loss out Hl Hrun i v Hi.
  - inversion Hrun; subst. rewrite lookup_nil in Hi. discriminate.
  - cbn [rsi_loop] in Hrun.
    destruct (index gains j) as [g |]; [| discriminate]. cbn [obind] in Hrun.
    rewrite div_by_int in Hrun by lia. cbn [obind] in Hrun.
    destruct (index losses j) as [l |] eqn:Hli; [| discriminate]. cbn [obind] in Hrun.
    rewrite div_by_int in Hrun by lia. cbn [obind] in Hrun.
    assert (Hl0 : (l == 0)%Q).
    { unfold index in Hli. destruct ((_ <? 0) || _); [discriminate |].
      destruct (losses !! _) as [y |] eqn:Hy; [| discriminate].
      inversion Hli; subst. exact (proj1 (Forall_lookup _ _) Hlosses _ _ Hy). }
    assert (Hl' : ((avg_loss * inject_Z (period - 1) + l) / inject_Z period == 0)%Q).
    { rewrite Hl, Hl0. unfold Qdiv. ring. }
    rewrite (rsi_value_no_loss _ _ Hl') in Hrun. cbn [obind] in Hrun.
    destruct (rsi_loop period gains losses rest _ _) as [vs |] eqn:Hrest; [| discriminate].
    cbn [obind] in Hrun. inversion Hrun; subst out.
    destruct i as [| i]; cbn in Hi.
    + inversion Hi; reflexivity.
    + exact (IH _ _ _ Hl' Hrest i v Hi).
Qed.

(** X25: on prices that never fall, every value [rsi] returns is
    exactly 100: the average loss is zero and the division by it is
    skipped. *)
Theorem rsi_saturates_without_losses (prices : list Q) (period : Z) :
  1 <= period ->
  (forall i a b, prices !! i = Some a -> prices !! S i = Some b -> (a <= b)%Q) ->
  exists out,
    rsi prices period = Return out /\
    forall i v, out !! i = Some (Some v) -> v = 100%Q.
Proof.
  intros Hp Hmono. destruct (rsi_aligned prices period Hp) as (out & Hout & _).
  exists out. split; [exact Hout |].
  unfold rsi in Hout.
  destruct (Z.ltb_spec (len prices) (period + 1)) as [Hshort | Hlong].
  - inversion Hout; subst out. intros i v Hi. unfold replicate_py in Hi.
    apply lookup_repeat_eq in Hi. discriminate.
  - match type of Hout with
    | obind (for_each ?b ?l) _ = _ => set (body := b) in *
    end.
    destruct (for_each_defined body (range 1 (len prices))) as (deltas & Hd & _ & Hnth).
    { intros i Hi. apply elem_of_range in Hi. unfold body.
      destruct (index_in_range prices i ltac:(lia)) as (a & -> & _).
      destruct (index_in_range prices (i - 1) ltac:(lia)) as (b & -> & _).
      cbn [obind]. eauto. }
    rewrite Hd in Hout. cbn [obind] in Hout.
    assert (Hdeltas : Forall (fun d => (0 <= d)%Q) deltas).
    { apply Forall_lookup. intros j d Hj. destruct (Hnth _ _ Hj) as (i & Hi & Hb).
      apply lookup_range in Hi as [-> Hlt]. unfold body in Hb.
      destruct (index_in_range prices (1 + Z.of_nat j) ltac:(lia)) as (a & Ha & Hal).
      destruct (index_in_range prices (1 + Z.of_nat j - 1) ltac:(lia)) as (b & Hb' & Hbl).
      rewrite Ha, Hb' in Hb. cbn [obind] in Hb. inversion Hb; subst d.
      replace (Z.to_nat (1 + Z.of_nat j)) with (S j) in Hal by lia.
      replace (Z.to_nat (1 + Z.of_nat j - 1)) with j in Hbl by lia.
      pose proof (Hmono j b a Hbl Hal). lra. }
    set (gains := map (fun delta => max2 delta 0) deltas) in *.
    set (losses := map (fun delta => Qabs (min2 delta 0)) deltas) in *.
    assert (Hlosses : Forall (fun x => (x == 0)%Q) losses).
    { apply Forall_forall. intros x Hx. apply list_elem_of_fmap in Hx as (d & -> & Hin).
      pose proof (proj1 (Forall_forall _ _) Hdeltas d Hin) as Hd0. cbn in Hd0.
      unfold min2. destruct (Qlt_le_dec 0 d) as [Hpos | Hle]; [reflexivity |].
      rewrite Qabs_pos by exact Hd0. apply Qle_antisym; assumption. }
    rewrite !div_by_int in Hout by lia. cbn [obind] in Hout.
    assert (Hal : (sum (slice losses 0 period) / inject_Z period == 0)%Q).
    { rewrite (sum_zero (slice losses 0 period)) by (apply slice_Forall; exact Hlosses).
      unfold Qdiv. ring. }
    rewrite (rsi_value_no_loss _ _ Hal) in Hout. cbn [obind] in Hout.
    destruct (rsi_loop period gains losses _ _ _) as [tail |] eqn:Htail; [| discriminate].
    cbn [obind] in Hout. inversion Hout; subst out.
    intros i v Hi.
    destruct (decide (i < length (replicate_py period (@None Q)))%nat) as [Hlt | Hge].
    + rewrite lookup_app_l in Hi by exact Hlt. unfold replicate_py in Hi.
      apply lookup_repeat_eq in Hi. discriminate.
    + rewrite lookup_app_r in Hi by lia.
      destruct (i - length (replicate_py period (@None Q)))%nat as [| j]; cbn in Hi.
      * inversion Hi; reflexivity.
      * exact (rsi_loop_no_loss period gains losses _ Hp Hlosses _ _ _ Hal Htail j v Hi).
Qed.

End Saturation.

(** ** Signal rules *)

Section Signals.

Import IndicatorManager.

Lemma get_signals_elem (indicators : list indicator_row) (entry : symbol_signals) :
  entry ∈ get_signals indicators <->
  exists ind, ind ∈ indicators /\ entry = signals_of ind /\ ss_signals entry <> [].
Proof.
  induction indicators as [| ind rest IH]; cbn [get_signals].
  - split; [intros H; inversion H | intros (ind & H & _); inversion H].
  - destruct (ss_signals (signals_of ind)) as [| s ss] eqn:Hsig.
    + rewrite IH. split.
      * intros (i & Hi & He & Hne). exists i. split; [right; exact Hi | auto].
      * intros (i & Hi & He & Hne). apply elem_of_cons in Hi as [-> | Hi].
        -- subst entry. congruence.
        -- eauto.
    + rewrite elem_of_cons, IH. split.
      * intros [-> | (i & Hi & He & Hne)].
        -- exists ind. split; [left |]. split; [reflexivity | congruence].
        -- exists i. split; [right; exact Hi | auto].
      * intros (i & Hi & He & Hne). apply elem_of_cons in Hi as [-> | Hi]; [left; exact He |].
        right. eauto.
Qed.

Lemma rule_shapes (ind : indicator_row) :
  (rsi_signals ind = [] \/ exists s, rsi_signals ind = [s] /\ sg_indicator s = "RSI") /\
  (macd_signals ind = [] \/ exists s, macd_signals ind = [s] /\ sg_indicator s = "MACD") /\
  (bb_signals ind = [] \/ exists s, bb_signals ind = [s] /\ sg_indicator s = "BB") /\
  (stoch_signals ind = [] \/ exists s, stoch_signals ind = [s] /\ sg_indicator s = "STOCH").
Proof.
  unfold rsi_signals, macd_signals, bb_signals, stoch_signals.
  repeat split; repeat case_match; eauto.
Qed.

(** X26: [get_signals] keeps exactly the rows that trigger at least one
    rule, in their order; every entry it returns carries the symbol,
    price and time of its row and between one and four signals, at most
    one for each of the indicators RSI, MACD, BB and STOCH. *)
Theorem get_signals_entries (indicators : list indicator_row) :
  (forall entry, entry ∈ get_signals indicators <->
     exists ind, ind ∈ indicators /\ entry = signals_of ind /\ ss_signals entry <> []) /\
  get_signals indicators =
    filter (fun e => ss_signals e <> []) (map signals_of indicators) /\
  (forall ind,
     (length (ss_signals (signals_of ind)) <= 4)%nat /\
     NoDup (map sg_indicator (ss_signals (signals_of ind))) /\
     ss_symbol (signals_of ind) = ir_symbol ind /\
     ss_price (signals_of ind) = ir_current_price ind /\
     ss_timestamp (signals_of ind) = ir_created_at ind).
Proof.
  split; [intros entry; apply get_signals_elem |]. split.
  - induction indicators as [| ind rest IH]; [reflexivity |].
    cbn [get_signals map]. rewrite filter_cons, IH.
    destruct (ss_signals (signals_of ind)) eqn:Hsig.
    + rewrite decide_False by auto. reflexivity.
    + rewrite decide_True by discriminate. reflexivity.
  - intros ind. cbn [signals_of ss_signals ss_symbol ss_price ss_timestamp].
    destruct (rule_shapes ind) as ([-> | (s1 & -> & H1)] & [-> | (s2 & -> & H2)] &
                                   [-> | (s3 & -> & H3)] & [-> | (s4 & -> & H4)]);
      cbn [app length map]; rewrite ?H1, ?H2, ?H3, ?H4;
      (split; [lia |]); (split; [| auto]);
      apply (bool_decide_unpack _); vm_compute; reflexivity.
Qed.

(** X27: the RSI rule: a BUY when the stored RSI is below 30, a SELL
    when it is above 70, the value attached; but a stored RSI of exactly
    zero, like a NULL, gives no signal at all. *)
Theorem rsi_rule (ind : indicator_row) :
  (forall r, ir_rsi_14 ind = Some r -> ~ (r == 0)%Q -> (r < 30)%Q ->
     rsi_signals ind =
       [{| sg_type := "BUY"; sg_indicator := "RSI"; sg_value := Some r;
           sg_reason := "Oversold" |}]) /\
  (forall r, ir_rsi_14 ind = Some r -> (70 < r)%Q ->
     rsi_signals ind =
       [{| sg_type := "SELL"; sg_indicator := "RSI"; sg_value := Some r;
           sg_reason := "Overbought" |}]) /\
  (forall r, ir_rsi_14 ind = Some r -> (30 <= r <= 70)%Q -> rsi_signals ind = []) /\
  (forall r, ir_rsi_14 ind = Some r -> (r == 0)%Q -> rsi_signals ind = []) /\
  (ir_rsi_14 ind = None -> rsi_signals ind = []).
Proof.
  unfold rsi_signals, truthy_dec, value, ltb.
  repeat split.
  - intros r -> Hnz Hlt. rewrite Qeq_bool_false by exact Hnz. cbn.
    destruct (Qlt_le_dec r 30); [reflexivity | lra].
  - intros r -> Hgt. rewrite Qeq_bool_false by lra. cbn.
    destruct (Qlt_le_dec r 30); [lra |].
    destruct (Qlt_le_dec 70 r); [reflexivity | lra].
  - intros r -> [Hlo Hhi]. destruct (Qeq_bool r 0); [reflexivity |]. cbn.
    destruct (Qlt_le_dec r 30); [lra |].
    destruct (Qlt_le_dec 70 r); [lra | reflexivity].
  - intros r -> Hz. replace (Qeq_bool r 0) with true
      by (symmetry; apply Qeq_bool_iff; exact Hz). reflexivity.
  - intros ->. reflexivity.
Qed.

End Signals.

(** ** Instances on the sample data *)

Section MoreExamples.

Import BinanceAPI CandleCollector Continuous Spec Fixtures Samples.

(** Witness for X2: two candles inserted twice. *)
Lemma insert_candles_idempotent_witness :
  (insert_candles E_two_hours two_rows
     (insert_candles E_two_hours two_rows empty_world).2).1 = Return 0.
Proof.
  refine (proj1 (insert_candles_idempotent E_two_hours two_rows empty_world
                   (insert_candles E_two_hours two_rows empty_world).2 2 _ _)).
  - vm_compute. reflexivity.
  - reflexivity.
Defined.

(** Witness for X8: no attempt allowed, explicit start. *)
Lemma run_without_attempts_witness :
  collect_single_symbol E_no_attempt "BTCUSDT" "1h" (Some hour) None 1000 empty_world =
    (Return (0, "success"), empty_world).
Proof.
  apply (run_without_attempts_reports_success E_no_attempt "BTCUSDT" "1h" (Some hour)
           None 1000 empty_world hour).
  - cbn. lia.
  - reflexivity.
Defined.

(** Witness for X9: the interval "7m" with a cursor at hour 1. *)
Lemma unknown_interval_witness :
  (collect_single_symbol E_quiet "BTCUSDT" "7m" None None 100 world_with_7m_cursor).1 =
    Return (0, "'7m'").
Proof.
  refine (proj1 (unknown_interval_fails_before_fetch E_quiet "BTCUSDT" "7m" None 100
                   world_with_7m_cursor (active_cursor hour) hour _ _ _ _)).
  - vm_compute. reflexivity.
  - vm_compute. reflexivity.
  - reflexivity.
  - unfold hour. lia.
Defined.

(** Witness for X10: a worker on BTCUSDT, interval 1h. *)
Lemma worker_job_witness :
  worker_job E_two_hours "BTCUSDT" "1h" empty_world =
  (Return tt, (collect_single_symbol E_two_hours "BTCUSDT" "1h" None None 100
                 empty_world).2).
Proof.
  apply (worker_job_is_a_cursor_run E_two_hours "BTCUSDT" "1h" empty_world).
  refine (ex_intro _ hour _). vm_compute. reflexivity.
Defined.

(** Witness for X11: the cursor is at hour 1, the upstream returns the
    hours 2 and 3. *)
Lemma cursor_run_advances_witness :
  exists t',
    (last_collected_time <$>
       collection_control
         (collect_single_symbol E_two_hours "BTCUSDT" "1h" None None 1000
            world_after_first_run).2 !! BTC_1h) = Some (Some t') /\
    hour < t'.
Proof.
  destruct (cursor_run_advances E_two_hours "BTCUSDT" "1h" None 1000
              world_after_first_run
              (get_klines E_two_hours "BTCUSDT" "1h" (Some (hour + hour)) None 1000
                 world_after_first_run).2
              (active_cursor hour) hour hour [hourly 2; hourly 3]
              (parse_kline_data (hourly 2) "BTCUSDT" "1h")
              [parse_kline_data (hourly 3) "BTCUSDT" "1h"])
    as (t' & Hcursor & _ & Hlt).
  - vm_compute. reflexivity.
  - vm_compute. reflexivity.
  - reflexivity.
  - unfold hour. lia.
  - vm_compute. reflexivity.
  - constructor; [| constructor; [| constructor]]; vm_compute; discriminate.
  - vm_compute. reflexivity.
  - reflexivity.
  - exists t'. split; [exact Hcursor | exact Hlt].
Defined.


(** Witness for X13: a sweep on the interval "7m". *)
Lemma sweep_unknown_interval_witness :
  collect_all_tokens_single E_quiet "7m" 100 ["BTCUSDT"; "ETHUSDT"]
    world_with_7m_cursor = (Raise (key_error "7m"), world_with_7m_cursor).
Proof.
  apply (sweep_unknown_interval_raises E_quiet "7m" 100 "BTCUSDT" ["ETHUSDT"]
           world_with_7m_cursor (active_cursor hour) hour).
  - vm_compute. reflexivity.
  - reflexivity.
  - vm_compute. reflexivity.
  - reflexivity.
  - unfold hour. lia.
Defined.

(** Witness for X14: gap-fill on the interval "7m". *)
Lemma gap_fill_unknown_interval_witness :
  fill_missing_data 1 E_quiet "BTCUSDT" "7m" 1 empty_world =
    Some (Raise (key_error "7m"), [], empty_world).
Proof.
  apply (gap_fill_unknown_interval_raises E_quiet "BTCUSDT" "7m" 1 0 empty_world).
  - vm_compute. reflexivity.
  - lia.
  - reflexivity.
Defined.

(** Witness for X15: gap-fill over zero days. *)
Lemma gap_fill_nothing_witness :
  fill_missing_data 0 E_quiet "BTCUSDT" "7m" 0 empty_world =
    Some (Return 0, [], empty_world).
Proof.
  apply (gap_fill_nothing_to_do E_quiet "BTCUSDT" "7m" 0 0 empty_world). lia.
Defined.




(** Witness for X19: the stop event is set at the second test. *)
Lemma schedule_stop_witness :
  _schedule_collection E_stop_second "1h" ["BTCUSDT"; "ETHUSDT"; "BNBUSDT"] 0 [] =
    [Some ("BTCUSDT", "1h")].
Proof.
  apply (schedule_stops_at_signal E_stop_second "1h" ["BTCUSDT"; "ETHUSDT"; "BNBUSDT"]
           1 []).
  - cbn. lia.
  - intros i Hi. destruct i; [reflexivity | lia].
  - right. reflexivity.
Defined.

End MoreExamples.

Section IndicatorExamples.

Import TechnicalIndicators IndicatorManager Spec Samples.

(** Witness for X20: four prices, period 2. *)
Lemma ema_line_witness :
  exists out, ema zigzag 2 = Return out /\ aligned 4 2 out.
Proof. apply (ema_line_aligned zigzag 2). lia. Defined.

(** Witness for X21: four prices, period 2. *)
Lemma ema_starts_at_sma_witness :
  exists e s,
    ema zigzag 2 = Return e /\ sma zigzag 2 = Return s /\ s !! 1%nat = e !! 1%nat.
Proof.
  destruct (ema_starts_at_sma zigzag 2) as (e & s & He & Hs & _ & Heq).
  - lia.
  - vm_compute. discriminate.
  - exists e, s. repeat split; assumption.
Defined.


(** Witness for X23: four prices, period 2. *)
Lemma rsi_range_witness :
  exists out,
    rsi zigzag 2 = Return out /\
    forall i v, out !! i = Some (Some v) -> (0 <= v <= 100)%Q.
Proof. apply (rsi_between_0_and_100 zigzag 2). lia. Defined.

(** Witness for X24: three candles, periods 2 and 2. *)
Lemma stochastic_range_witness :
  exists k_values d_values,
    stochastic sample_highs sample_lows sample_closes 2 2 =
      Return (k_values, d_values) /\
    (forall i v, k_values !! i = Some (Some v) -> (0 <= v <= 100)%Q) /\
    (forall i v, d_values !! i = Some (Some v) -> (0 <= v <= 100)%Q).
Proof.
  apply (stochastic_between_0_and_100 sample_highs sample_lows sample_closes 2 2).
  - reflexivity.
  - reflexivity.
  - lia.
  - lia.
  - intros [| [| [| i]]] h l c Hh Hl Hc; cbn in Hh, Hl, Hc; try discriminate;
      inversion Hh; inversion Hl; inversion Hc; split; vm_compute; discriminate.
Defined.

(** Witness for X25: prices that never fall. *)
Lemma rsi_saturates_witness :
  exists out,
    rsi rising 2 = Return out /\
    forall i v, out !! i = Some (Some v) -> v = 100%Q.
Proof.
  apply (rsi_saturates_without_losses rising 2).
  - lia.
  - intros [| [| [| i]]] a b Ha Hb; cbn in Ha, Hb; try discriminate;
      inversion Ha; inversion Hb; vm_compute; discriminate.
Defined.

End IndicatorExamples.
